(** * clean_vsc_exts: name decoding, version ordering and selection

    A shallow embedding of [src/clean_vsc_exts/clean_vsc_exts.py] and the
    properties its specification states about it.

    Conventions of the embedding.

    - A Python [str] is a Rocq [string].  The model covers names written in
      7-bit ASCII (publisher and extension identifiers, dotted versions,
      platform tags).  Codes 128..255 of [ascii] are kept as opaque symbols:
      they are no digits and no whitespace and are ordered by their code.
      Python's [str.isdigit], [int] and [str.strip] accept further
      characters outside ASCII (superscript digits, the decimal digits and
      the spaces of other scripts); a statement that says which characters
      are no digits is made for ASCII strings, [Py.isascii].
    - A [Path] below the scanned directory is represented by its last
      component ([Path.name]); two such paths are equal exactly when their
      names are.
    - An uncaught Python exception is a [Raise] result; the only one the
      modelled functions can raise is [IndexError].  A [ValueError] of
      [int] is caught on the spot, so [Py.int] returns an [option].
    - Reading the arguments and the directory, opening the keep file, and
      the progress and summary lines of [main], are left out; the lines
      that [remove_extension] prints are kept, they carry the reason, and
      [read_extensions_to_keep] is modelled on the lines of the file.
    - [defaultdict(list)] keeps insertion order when iterated, so it is an
      association list whose keys are in order of first insertion.
    - The set of names to keep is a [gset string]. *)

From Stdlib Require Import ZArith Ascii String.
From stdpp Require Import base list strings gmap.

Local Open Scope Z_scope.

(** ** Python results *)

Inductive exn : Type :=
| IndexError.

Inductive result (A : Type) : Type :=
| Ok (a : A)
| Raise (e : exn).

Arguments Ok {A} a.
Arguments Raise {A} e.

(** ** The string built-ins the program uses *)

Module Py.

(** [c.isdigit()], for an ASCII character [c] *)
Definition isdigit (c : ascii) : bool :=
  let n := nat_of_ascii c in
  ((48 <=? n) && (n <=? 57))%nat.

(** [s.split(sep)] for a separator of one character: never empty. *)
Fixpoint split (sep : ascii) (s : string) : list string :=
  match s with
  | EmptyString => [EmptyString]
  | String c s' =>
      if Ascii.eqb c sep then EmptyString :: split sep s'
      else match split sep s' with
           | [] => [String c EmptyString]
           | p :: ps => String c p :: ps
           end
  end.

(** [sep.join(parts)] *)
Definition join (sep : string) (parts : list string) : string :=
  String.concat sep parts.

(** [s[n:]] *)
Fixpoint slice_from (n : nat) (s : string) : string :=
  match n, s with
  | O, _ => s
  | S n', EmptyString => EmptyString
  | S n', String _ s' => slice_from n' s'
  end.

(** [s.lstrip(c)] for one character [c] *)
Fixpoint lstrip (c : ascii) (s : string) : string :=
  match s with
  | EmptyString => EmptyString
  | String d s' => if Ascii.eqb d c then lstrip c s' else s
  end.

(** [s[0]] *)
Definition first_char (s : string) : result ascii :=
  match s with
  | EmptyString => Raise IndexError
  | String c _ => Ok c
  end.

(** [parts[-1]] on a list that [split] returned *)
Definition last_part (parts : list string) : string :=
  List.last parts EmptyString.

(** [parts[:-1]] *)
Definition but_last (parts : list string) : list string :=
  List.removelast parts.

(** [not s] *)
Definition is_empty (s : string) : bool :=
  match s with
  | EmptyString => true
  | String _ _ => false
  end.

(** Whitespace that [int] skips on both sides of an ASCII literal. *)
Definition isspace (c : ascii) : bool :=
  let n := nat_of_ascii c in
  (((9 <=? n) && (n <=? 13)) || (n =? 32))%nat.

Fixpoint skip_space (s : string) : string :=
  match s with
  | EmptyString => EmptyString
  | String c s' => if isspace c then skip_space s' else s
  end.

Definition digit_value (c : ascii) : Z :=
  Z.of_nat (nat_of_ascii c) - 48.

(** The digits of a literal, with single underscores allowed between
    two digits.  Returns the value read and the text that follows. *)
Fixpoint scan_digits (s : string) (acc : Z) (after_underscore : bool)
  : option (Z * string) :=
  match s with
  | EmptyString => if after_underscore then None else Some (acc, s)
  | String c s' =>
      if isdigit c then scan_digits s' (10 * acc + digit_value c) false
      else if Ascii.eqb c "_" then
        if after_underscore then None else scan_digits s' acc true
      else if after_underscore then None else Some (acc, s)
  end.

(** [int(s)]: [None] stands for [ValueError].  The interpreter's limit on
    the number of digits of a literal is not modelled. *)
Definition int (s : string) : option Z :=
  let s1 := skip_space s in
  let '(sign, s2) :=
    match s1 with
    | String "+" r => (1, r)
    | String "-" r => (-1, r)
    | _ => (1, s1)
    end in
  match s2 with
  | EmptyString => None
  | String c _ =>
      if isdigit c then
        match scan_digits s2 0 false with
        | Some (n, rest) =>
            if is_empty (skip_space rest) then Some (sign * n) else None
        | None => None
        end
      else None
  end.

(** [a < b] on strings: lexicographic on the characters' codes. *)
Definition lt (a b : string) : bool := String.ltb a b.

(** Whitespace in the sense of [str.isspace]: what [s.strip()] removes. *)
Definition is_whitespace (c : ascii) : bool :=
  let n := nat_of_ascii c in
  (((9 <=? n) && (n <=? 13)) || ((28 <=? n) && (n <=? 32)))%nat.

Fixpoint lstrip_whitespace (s : string) : string :=
  match s with
  | EmptyString => EmptyString
  | String c s' => if is_whitespace c then lstrip_whitespace s' else s
  end.

Fixpoint rstrip_whitespace (s : string) : string :=
  match s with
  | EmptyString => EmptyString
  | String c s' =>
      let r := rstrip_whitespace s' in
      if is_empty r && is_whitespace c then EmptyString else String c r
  end.

(** [s.strip()] *)
Definition strip (s : string) : string :=
  rstrip_whitespace (lstrip_whitespace s).

(** [s.startswith(c)] for one character [c] *)
Definition startswith (c : ascii) (s : string) : bool :=
  match s with
  | EmptyString => false
  | String d _ => Ascii.eqb d c
  end.

(** [s.isascii()]: every character is one of the 128 ASCII characters. *)
Fixpoint isascii (s : string) : bool :=
  match s with
  | EmptyString => true
  | String c s' => (nat_of_ascii c <? 128)%nat && isascii s'
  end.

End Py.

(** ** NameCodec: [extract_base_name] and [extract_version_info] *)

(** [part and part[0].isdigit()] *)
Definition starts_with_digit (part : string) : bool :=
  match part with
  | EmptyString => false
  | String c _ => Py.isdigit c
  end.

(** The [for i, part in enumerate(parts)] loop of [extract_base_name];
    returning the accumulator early is the [break]. *)
Fixpoint base_parts_loop (i : nat) (parts base_parts : list string)
  : list string :=
  match parts with
  | [] => base_parts
  | part :: rest =>
      if (i =? 0)%nat then base_parts_loop (S i) rest (base_parts ++ [part])
      else if starts_with_digit part then base_parts
      else base_parts_loop (S i) rest (base_parts ++ [part])
  end.

Definition extract_base_name (extension_dir_name : string) : string :=
  let parts := Py.split "-" extension_dir_name in
  if (length parts <=? 1)%nat then extension_dir_name
  else Py.join "-" (base_parts_loop 0 parts []).

Definition extract_version_info (extension_dir_name : string)
  : result (string * string) :=
  let base_name := extract_base_name extension_dir_name in
  let remainder :=
    Py.lstrip "-" (Py.slice_from (String.length base_name) extension_dir_name) in
  if Py.is_empty remainder then Ok (EmptyString, EmptyString)
  else
    let parts := Py.split "-" remainder in
    if (1 <? length parts)%nat then
      match Py.first_char (Py.last_part parts) with
      | Raise e => Raise e
      | Ok c =>
          if negb (Py.isdigit c) then
            Ok (Py.join "-" (Py.but_last parts), Py.last_part parts)
          else Ok (remainder, EmptyString)
      end
    else Ok (remainder, EmptyString).

(** The specification's [Entry], and its [decode]: the program has no such
    record, it calls the two functions above on the raw name. *)
Record Entry : Type := mkEntry {
  rawName : string;
  baseName : string;
  version : string;
  arch : string
}.

Definition decode (raw : string) : result Entry :=
  match extract_version_info raw with
  | Raise e => Raise e
  | Ok (v, a) => Ok (mkEntry raw (extract_base_name raw) v a)
  end.

(** ** VersionComparator: [compare_versions] *)

(** The body of the [for] loop: [Some r] is [return r], [None] goes on
    with the next position.  A [ValueError] of either [int] call lands in
    the [except] branch. *)
Definition compare_part (p1 p2 : string) : option Z :=
  match Py.int p1, Py.int p2 with
  | Some n1, Some n2 =>
      if n1 <? n2 then Some (-1)
      else if n1 >? n2 then Some 1
      else None
  | _, _ =>
      if Py.lt p1 p2 then Some (-1)
      else if Py.lt p2 p1 then Some 1
      else None
  end.

Fixpoint compare_loop (parts1 parts2 : list string) (range : list nat) : Z :=
  match range with
  | [] => 0
  | i :: range' =>
      let p1 := if (i <? length parts1)%nat then nth i parts1 EmptyString else "0" in
      let p2 := if (i <? length parts2)%nat then nth i parts2 EmptyString else "0" in
      match compare_part p1 p2 with
      | Some r => r
      | None => compare_loop parts1 parts2 range'
      end
  end.

Definition compare_versions (ver1 ver2 : string) : Z :=
  if Py.is_empty ver1 && Py.is_empty ver2 then 0
  else if Py.is_empty ver1 then -1
  else if Py.is_empty ver2 then 1
  else
    let parts1 := Py.split "." ver1 in
    let parts2 := Py.split "." ver2 in
    compare_loop parts1 parts2
      (seq 0 (Nat.max (length parts1) (length parts2))).

(** ** The keep list: [read_extensions_to_keep] and [should_keep_extension] *)

(** The set comprehension of [read_extensions_to_keep] over the lines that
    iterating the opened file yields.  Opening the file is left out. *)
Definition read_extensions_to_keep (lines : list string) : gset string :=
  list_to_set
    (map Py.strip
       (List.filter
          (fun line =>
             negb (Py.is_empty (Py.strip line))
             && negb (Py.startswith "#" (Py.strip line)))
          lines)).

Definition should_keep_extension (extension_dir : string)
    (keep_list : gset string) : bool :=
  bool_decide (extract_base_name extension_dir ∈ keep_list).

(** ** The world the program runs in *)

(** What [remove_extension] prints. *)
Inductive message : Type :=
| WouldRemove (name reason : string)
| Removed (name reason : string)
| PermissionDenied (name : string)
| ErrorRemoving (name : string).

(** Exceptions of [shutil.rmtree]. *)
Inductive rm_exn : Type :=
| PermissionError
| OtherException.

(** [listing] is what [extensions_dir.iterdir()] yields, in its order.
    [compared] and [rmtree_calls] are ghost traces: the arguments of every
    call of [compare_versions] made by [find_latest_version], and of every
    call of [shutil.rmtree]. *)
Record World : Type := mkWorld {
  listing : list string;
  compared : list (string * string);
  rmtree_calls : list string;
  printed : list message
}.

Definition M (A : Type) : Type := World -> result A * World.

Global Instance M_ret : MRet M := fun A a w => (Ok a, w).

Global Instance M_bind : MBind M := fun A B k m w =>
  match m w with
  | (Ok a, w') => k a w'
  | (Raise e, w') => (Raise e, w')
  end.

Definition lift {A} (r : result A) : M A := fun w => (r, w).

Definition print (msg : message) : M unit :=
  fun w => (Ok tt, mkWorld (listing w) (compared w) (rmtree_calls w)
                     (printed w ++ [msg])).

Definition get_installed_extensions : M (list string) :=
  fun w => (Ok (listing w), w).

(** [compare_versions] as called from [find_latest_version]: the call is
    recorded. *)
Definition call_compare_versions (ver1 ver2 : string) : M Z :=
  fun w => (Ok (compare_versions ver1 ver2),
            mkWorld (listing w) (compared w ++ [(ver1, ver2)])
              (rmtree_calls w) (printed w)).

(** ** SelectionPolicy: [find_latest_version] *)

(** The [for ext_dir in extension_dirs[1:]] loop; the three variables it
    updates are its state. *)
Fixpoint latest_loop (dirs : list string)
    (latest latest_version latest_arch : string) : M string :=
  match dirs with
  | [] => mret latest
  | ext_dir :: dirs' =>
      '(version, arch) ← lift (extract_version_info ext_dir);
      cmp_result ← call_compare_versions version latest_version;
      if cmp_result >? 0 then latest_loop dirs' ext_dir version arch
      else if cmp_result =? 0 then
        if (String.length latest <? String.length ext_dir)%nat
        then latest_loop dirs' ext_dir version arch
        else latest_loop dirs' latest latest_version latest_arch
      else latest_loop dirs' latest latest_version latest_arch
  end.

Definition find_latest_version (extension_dirs : list string) : M string :=
  match extension_dirs with
  | [only] => mret only
  | [] => lift (Raise IndexError)
  | first :: rest =>
      '(latest_version, latest_arch) ← lift (extract_version_info first);
      latest_loop rest first latest_version latest_arch
  end.

(** ** Grouper: [group_extensions_by_base_name] *)

(** [grouped[k].append(v)] on a [defaultdict(list)] *)
Fixpoint dict_append (grouped : list (string * list string)) (k v : string)
  : list (string * list string) :=
  match grouped with
  | [] => [(k, [v])]
  | (k', vs) :: grouped' =>
      if String.eqb k' k then (k', (vs ++ [v])) :: grouped'
      else (k', vs) :: dict_append grouped' k v
  end.

Definition group_extensions_by_base_name (extension_dirs : list string)
  : list (string * list string) :=
  fold_left
    (fun grouped ext_dir =>
       dict_append grouped (extract_base_name ext_dir) ext_dir)
    extension_dirs [].

(** ** Reconciler: [main] *)

Record Args : Type := mkArgs {
  dry_run : bool;
  keep_all_versions : bool
}.

(** The three lists [main] fills. *)
Record Plan : Type := mkPlan {
  to_remove : list string;
  to_keep : list string;
  old_versions_to_remove : list string
}.

(** [[d for d in ext_dirs if d != latest]], appended one by one *)
Definition others (latest : string) (ext_dirs : list string) : list string :=
  List.filter (fun ext_dir => negb (String.eqb ext_dir latest)) ext_dirs.

(** The [for base_name, ext_dirs in grouped.items()] loop. *)
Fixpoint decide_loop (keep_list : gset string) (args : Args)
    (groups : list (string * list string)) (p : Plan) : M Plan :=
  match groups with
  | [] => mret p
  | (base_name, ext_dirs) :: groups' =>
      if bool_decide (base_name ∈ keep_list) then
        if keep_all_versions args then
          decide_loop keep_list args groups'
            (mkPlan (to_remove p) (to_keep p ++ ext_dirs)
               (old_versions_to_remove p))
        else
          latest ← find_latest_version ext_dirs;
          decide_loop keep_list args groups'
            (mkPlan (to_remove p) (to_keep p ++ [latest])
               (old_versions_to_remove p ++ others latest ext_dirs))
      else
        decide_loop keep_list args groups'
          (mkPlan (to_remove p ++ ext_dirs) (to_keep p)
             (old_versions_to_remove p))
  end.

(** [main] up to its summary: listing, grouping and the decisions. *)
Definition decide_phase (keep_list : gset string) (args : Args) : M Plan :=
  installed ← get_installed_extensions;
  decide_loop keep_list args (group_extensions_by_base_name installed)
    (mkPlan [] [] []).

(** The specification's decisions, read off the three lists. *)
Inductive Action : Type :=
| Keep
| RemoveUnwanted
| RemoveOldVersion.

Definition decisions (p : Plan) : list (string * Action) :=
  map (fun d => (d, Keep)) (to_keep p)
  ++ map (fun d => (d, RemoveUnwanted)) (to_remove p)
  ++ map (fun d => (d, RemoveOldVersion)) (old_versions_to_remove p).

Section Removal.

(** Which directories [shutil.rmtree] cannot remove, and how it fails. *)
Variable rmtree_fault : string -> option rm_exn.

(** [shutil.rmtree(extension_dir)]: a directory that is not there is an
    error too ([FileNotFoundError]). *)
Definition rmtree (extension_dir : string) (w : World)
  : (unit + rm_exn) * World :=
  let w1 := mkWorld (listing w) (compared w)
              (rmtree_calls w ++ [extension_dir]) (printed w) in
  if bool_decide (extension_dir ∈ listing w) then
    match rmtree_fault extension_dir with
    | Some e => (inr e, w1)
    | None =>
        (inl tt,
         mkWorld (others extension_dir (listing w)) (compared w)
           (rmtree_calls w ++ [extension_dir]) (printed w))
    end
  else (inr OtherException, w1).

(** The [try] of [remove_extension] with its two [except] clauses. *)
Definition remove_extension (extension_dir : string) (dry_run : bool)
    (reason : string) : M bool :=
  if dry_run then
    print (WouldRemove extension_dir reason);; mret true
  else
    fun w =>
      match rmtree extension_dir w with
      | (inl _, w') => (print (Removed extension_dir reason);; mret true) w'
      | (inr PermissionError, w') =>
          (print (PermissionDenied extension_dir);; mret false) w'
      | (inr OtherException, w') =>
          (print (ErrorRemoving extension_dir);; mret false) w'
      end.

(** One of the two [for ext_dir in ...] loops at the end of [main];
    [counts] is [(success_count, fail_count)]. *)
Fixpoint remove_loop (dirs : list string) (dry : bool) (reason : string)
    (counts : nat * nat) : M (nat * nat) :=
  match dirs with
  | [] => mret counts
  | ext_dir :: dirs' =>
      ok ← remove_extension ext_dir dry reason;
      if (ok : bool) then remove_loop dirs' dry reason (S (fst counts), snd counts)
      else remove_loop dirs' dry reason (fst counts, S (snd counts))
  end.

(** Both removal loops. *)
Definition removal_phase (p : Plan) (dry : bool) : M (nat * nat) :=
  counts ← remove_loop (to_remove p) dry "not in keep list" (O, O);
  remove_loop (old_versions_to_remove p) dry "old version" counts.

(** [main] after the arguments, the keep file and the directory have been
    read; the result is the exit status. *)
Definition main (keep_list : gset string) (args : Args) : M Z :=
  p ← decide_phase keep_list args;
  match to_remove p, old_versions_to_remove p with
  | [], [] => mret 0
  | _, _ =>
      counts ← removal_phase p (dry_run args);
      mret (if (snd counts =? 0)%nat then 0 else 1)
  end.

End Removal.

Definition initial (names : list string) : World := mkWorld names [] [] [].

(** ** The specification's wording, for comparison with the code *)

Module Spec.

(** "begins with a decimal digit" *)
Definition begins_with_digit (seg : string) : bool :=
  match seg with
  | EmptyString => false
  | String c _ =>
      existsb (Ascii.eqb c)
        ["0"; "1"; "2"; "3"; "4"; "5"; "6"; "7"; "8"; "9"]%char
  end.

(** "each subsequent segment up to (excluding) the first segment
    beginning with a decimal digit" *)
Fixpoint up_to_digit (segs : list string) : list string :=
  match segs with
  | [] => []
  | seg :: segs' =>
      if begins_with_digit seg then [] else seg :: up_to_digit segs'
  end.

(** "with a leading '-' stripped" *)
Definition strip_leading_dash (s : string) : string :=
  match s with
  | String "-" s' => s'
  | _ => s
  end.

Definition base (raw : string) : string :=
  match Py.split "-" raw with
  | first :: (_ :: _) as later => Py.join "-" (first :: up_to_digit later)
  | _ => raw
  end.

Definition remainder (raw : string) : string :=
  strip_leading_dash (Py.slice_from (String.length (base raw)) raw).

Definition decode (raw : string) : Entry :=
  match Py.split "-" raw with
  | first :: (_ :: _) =>
      let segs := Py.split "-" (remainder raw) in
      if (1 <? length segs)%nat
         && negb (begins_with_digit (List.last segs EmptyString))
      then mkEntry raw (base raw) (Py.join "-" (List.removelast segs))
             (List.last segs EmptyString)
      else mkEntry raw (base raw) (remainder raw) EmptyString
  | _ => mkEntry raw raw EmptyString EmptyString
  end.

Definition sign (c : comparison) : Z :=
  match c with
  | Lt => -1
  | Eq => 0
  | Gt => 1
  end.

(** "compared numerically when both segments parse as integers and
    lexically when either fails to parse" *)
Definition compare_position (x y : string) : Z :=
  match Py.int x, Py.int y with
  | Some n, Some m => sign (n ?= m)
  | _, _ => sign (String.compare x y)
  end.

(** "missing segments treated as 0" *)
Definition segment (segs : list string) (i : nat) : string :=
  default "0" (segs !! i).

(** "the result at the first differing position, 0 if none differs" *)
Fixpoint first_difference (rs : list Z) : Z :=
  match rs with
  | [] => 0
  | r :: rs' => if r =? 0 then first_difference rs' else r
  end.

Definition compare (a b : string) : Z :=
  match a, b with
  | EmptyString, EmptyString => 0
  | EmptyString, _ => -1
  | _, EmptyString => 1
  | _, _ =>
      let sa := Py.split "." a in
      let sb := Py.split "." b in
      first_difference
        (map (fun i => compare_position (segment sa i) (segment sb i))
           (seq 0 (Nat.max (length sa) (length sb))))
  end.

(** "the current Entry replaces the running best exactly when ..." *)
Definition replaces (current best : Entry) : bool :=
  let c := compare_versions (version current) (version best) in
  (0 <? c)
  || ((c =? 0)
      && (String.length (rawName best) <? String.length (rawName current))%nat).

(** "a single left-to-right scan" *)
Definition latest (first : Entry) (rest : list Entry) : Entry :=
  fold_left (fun best current => if replaces current best then current else best)
    rest first.

End Spec.

(** ** Auxiliary notions used in the statements *)

(** A raw name that starts with a dash and then a digit. *)
Definition dash_digit (raw : string) : bool :=
  match raw with
  | String "-" s => starts_with_digit s
  | _ => false
  end.

(** The world after some more calls of [compare_versions]. *)
Definition add_compared (w : World) (calls : list (string * string)) : World :=
  mkWorld (listing w) (compared w ++ calls) (rmtree_calls w) (printed w).

Definition message_name (m : message) : string :=
  match m with
  | WouldRemove name _ | Removed name _ => name
  | PermissionDenied name | ErrorRemoving name => name
  end.

Definition is_failure (m : message) : bool :=
  match m with
  | PermissionDenied _ | ErrorRemoving _ => true
  | WouldRemove _ _ | Removed _ _ => false
  end.

Definition message_reason (m : message) : option string :=
  match m with
  | WouldRemove _ reason | Removed _ reason => Some reason
  | PermissionDenied _ | ErrorRemoving _ => None
  end.

(** The directories of [dirs] whose base name is [b], in their order. *)
Definition group_of (b : string) (dirs : list string) : list string :=
  List.filter (fun d => String.eqb (extract_base_name d) b) dirs.

(** What a well-formed dictionary of groups over [dirs] is. *)
Definition groups_of (dirs : list string) (g : list (string * list string))
  : Prop :=
  List.NoDup (map fst g)
  /\ (forall b ds, In (b, ds) g -> ds = group_of b dirs /\ ds <> [])
  /\ (forall d, In d dirs -> In (extract_base_name d) (map fst g)).

(** [extract_version_info] returns on this directory name. *)
Definition decodes (d : string) : Prop :=
  exists va, extract_version_info d = Ok va.

(** A group that needs no removal: its base name is kept, and either all
    versions are kept or all its directories are the same one. *)
Definition settled (keep_list : gset string) (args : Args)
    (g : string * list string) : Prop :=
  fst g ∈ keep_list
  /\ snd g <> []
  /\ (keep_all_versions args = true
      \/ exists l, (forall d, In d (snd g) -> d = l)
                   /\ ((2 <= length (snd g))%nat -> decodes l)).

(** The raw name an entry stands for: base name, then the version and the
    architecture if there are any, each after a dash. *)
Definition entry_name (e : Entry) : string :=
  baseName e
  +:+ (if Py.is_empty (version e) then ""
       else "-" +:+ version e
            +:+ (if Py.is_empty (arch e) then "" else "-" +:+ arch e)).

(** A segment without the separator. *)
Definition no_sep (sep : ascii) (s : string) : Prop :=
  Py.split sep s = [s].

(** What [find_latest_version] returns, whatever the world. *)
Definition latest_of (ds : list string) : result string :=
  fst (find_latest_version ds (initial [])).

(** What a group in the keep list adds to [to_keep] and to
    [old_versions_to_remove]. *)
Definition kept_of (keep_all : bool) (g : string * list string) : list string :=
  if keep_all then snd g
  else match latest_of (snd g) with
       | Ok l => [l]
       | Raise _ => []
       end.

Definition old_of (keep_all : bool) (g : string * list string) : list string :=
  if keep_all then []
  else match latest_of (snd g) with
       | Ok l => others l (snd g)
       | Raise _ => []
       end.

Definition wanted (keep_list : gset string) (g : string * list string) : bool :=
  bool_decide (fst g ∈ keep_list).

(** The line is a report that the directory was removed. *)
Definition reports_removed (d : string) (m : message) : bool :=
  match m with
  | Removed name _ => String.eqb name d
  | _ => false
  end.

(** A dotted version all of whose segments [int] accepts. *)
Definition numeric (v : string) : Prop :=
  Forall (fun seg => is_Some (Py.int seg)) (Py.split "." v).

(** No version at all, or a numeric one. *)
Definition plain_version (v : string) : Prop := v = "" \/ numeric v.

(** The integer at a position of a dotted version, 0 where there is none. *)
Definition position_value (segs : list string) (i : nat) : Z :=
  default 0 (Py.int (Spec.segment segs i)).

(** * Properties *)

(** ** Worked examples *)

Example decode_python :
  decode "ms-python.python-2021.5.842923320"
  = Ok (mkEntry "ms-python.python-2021.5.842923320" "ms-python.python"
          "2021.5.842923320" "").
Proof. reflexivity. Qed.

Example decode_arch :
  decode "pkg-1.0.0-x64" = Ok (mkEntry "pkg-1.0.0-x64" "pkg" "1.0.0" "x64").
Proof. reflexivity. Qed.

Example decode_trailing_dash : decode "pkg-1.0-" = Raise IndexError.
Proof. reflexivity. Qed.

Example compare_numeric : compare_versions "1.2.3" "1.2.10" = -1.
Proof. reflexivity. Qed.

Example compare_padded : compare_versions "1.2" "1.2.0" = 0.
Proof. reflexivity. Qed.

Example end_to_end_plan :
  fst (decide_phase {["a.b"]} (mkArgs false false)
         (initial ["a.b-1.0.0"; "a.b-1.2.0"; "c.d-1.0.0"]))
  = Ok (mkPlan ["c.d-1.0.0"] ["a.b-1.2.0"] ["a.b-1.0.0"]).
Proof. vm_compute. reflexivity. Qed.

(** ** Strings: [split], [join] and slices *)

Lemma split_not_nil sep s : Py.split sep s <> [].
Proof.
  destruct s as [|c s]; simpl; [discriminate|].
  destruct (Ascii.eqb c sep); [discriminate|].
  destruct (Py.split sep s); discriminate.
Qed.

Lemma split_cons sep c s :
  Py.split sep (String c s)
  = if Ascii.eqb c sep then EmptyString :: Py.split sep s
    else String c (hd EmptyString (Py.split sep s)) :: tl (Py.split sep s).
Proof.
  simpl. destruct (Ascii.eqb c sep); [reflexivity|].
  pose proof (split_not_nil sep s) as Hne.
  destruct (Py.split sep s); [contradiction | reflexivity].
Qed.

Lemma join_cons2 sep x y l :
  Py.join sep (x :: y :: l) = (x +:+ sep +:+ Py.join sep (y :: l)).
Proof. reflexivity. Qed.

Lemma join_split sep s : Py.join (String sep EmptyString) (Py.split sep s) = s.
Proof.
  induction s as [|c s IH]; [reflexivity|].
  rewrite split_cons.
  pose proof (split_not_nil sep s) as Hne.
  destruct (Py.split sep s) as [|p ps]; [contradiction|].
  destruct (Ascii.eqb_spec c sep) as [->|_].
  - rewrite join_cons2, IH. reflexivity.
  - simpl hd; simpl tl. destruct ps as [|q ps].
    + simpl in *. congruence.
    + rewrite join_cons2 in IH |- *. rewrite <- IH. reflexivity.
Qed.

Lemma append_assoc (a b c : string) :
  (a +:+ (b +:+ c)) = ((a +:+ b) +:+ c).
Proof.
  induction a as [|x a IH]; [reflexivity|].
  change (String x (a +:+ (b +:+ c)) = String x ((a +:+ b) +:+ c)).
  now rewrite IH.
Qed.

Lemma join_app sep l1 l2 :
  l1 <> [] -> l2 <> [] ->
  Py.join sep (l1 ++ l2)%list = (Py.join sep l1 +:+ sep +:+ Py.join sep l2).
Proof.
  intros H1 H2. induction l1 as [|x l1 IH]; [contradiction|].
  destruct l1 as [|y l1].
  - destruct l2 as [|z l2]; [contradiction | reflexivity].
  - change ((x :: y :: l1) ++ l2)%list with (x :: y :: (l1 ++ l2)%list).
    rewrite !join_cons2.
    change (y :: (l1 ++ l2)%list) with ((y :: l1) ++ l2)%list.
    rewrite IH by discriminate.
    rewrite <- !append_assoc. reflexivity.
Qed.

Lemma slice_from_app a b : Py.slice_from (String.length a) (a +:+ b) = b.
Proof. induction a as [|c a IH]; [destruct b; reflexivity | exact IH]. Qed.

Lemma slice_from_all a : Py.slice_from (String.length a) a = EmptyString.
Proof. induction a as [|c a IH]; [reflexivity | exact IH]. Qed.

Lemma isdigit_spec c :
  Py.isdigit c
  = existsb (Ascii.eqb c) ["0"; "1"; "2"; "3"; "4"; "5"; "6"; "7"; "8"; "9"]%char.
Proof.
  destruct c as [[] [] [] [] [] [] [] []]; vm_compute; reflexivity.
Qed.

Lemma starts_with_digit_spec seg :
  starts_with_digit seg = Spec.begins_with_digit seg.
Proof. destruct seg; [reflexivity | apply isdigit_spec]. Qed.

Lemma isdigit_not_dash c : Py.isdigit c = true -> Ascii.eqb c "-" = false.
Proof.
  destruct c as [[] [] [] [] [] [] [] []]; vm_compute; congruence.
Qed.

(** ** NameCodec *)

Lemma base_parts_loop_S i parts acc :
  base_parts_loop (S i) parts acc = (acc ++ Spec.up_to_digit parts)%list.
Proof.
  revert i acc. induction parts as [|p parts IH]; intros i acc; simpl.
  - now rewrite app_nil_r.
  - rewrite <- starts_with_digit_spec.
    destruct (starts_with_digit p).
    + now rewrite app_nil_r.
    + rewrite IH, <- app_assoc. reflexivity.
Qed.

Lemma extract_base_name_spec raw : extract_base_name raw = Spec.base raw.
Proof.
  unfold extract_base_name, Spec.base.
  destruct (Py.split "-" raw) as [|first [|second later]] eqn:E; try reflexivity.
  change (base_parts_loop 0 (first :: second :: later) [])
    with (base_parts_loop 1 (second :: later) [first]).
  rewrite base_parts_loop_S. reflexivity.
Qed.

Lemma up_to_digit_split segs :
  Spec.up_to_digit segs = segs
  \/ exists d rest,
      segs = (Spec.up_to_digit segs ++ d :: rest)%list
      /\ Spec.begins_with_digit d = true.
Proof.
  induction segs as [|seg segs IH]; [now left|].
  simpl. destruct (Spec.begins_with_digit seg) eqn:D.
  - right. exists seg, segs. split; [reflexivity | exact D].
  - destruct IH as [IH | (d & rest & IH & Hd)].
    + left. now rewrite IH.
    + right. exists d, rest. split; [|exact Hd].
      simpl. now rewrite <- IH.
Qed.

Lemma join_begins_with_digit sep d rest :
  Spec.begins_with_digit d = true ->
  exists c s, Py.isdigit c = true /\ Py.join sep (d :: rest) = String c s.
Proof.
  rewrite <- starts_with_digit_spec.
  destruct d as [|c d]; [discriminate|]. simpl. intros Hc.
  destruct rest as [|r rest].
  - exists c, d. now split.
  - exists c, (d +:+ sep +:+ Py.join sep (r :: rest)). now split.
Qed.

(** What follows the base name in the raw name: nothing, or a dash and
    then a segment that starts with a digit. *)
Lemma after_base_shape raw :
  let tail := Py.slice_from (String.length (Spec.base raw)) raw in
  tail = EmptyString
  \/ exists c s, Py.isdigit c = true /\ tail = String "-" (String c s).
Proof.
  unfold Spec.base.
  destruct (Py.split "-" raw) as [|first [|second later]] eqn:E;
    cbv zeta; try (left; apply slice_from_all).
  pose proof (join_split "-" raw) as J. rewrite E in J.
  destruct (up_to_digit_split (second :: later)) as [U | (d & rest & U & Hd)].
  - rewrite U, J. left. apply slice_from_all.
  - right.
    destruct (join_begins_with_digit "-" d rest Hd) as (c & s & Hc & Hj).
    exists c, s. split; [exact Hc|].
    remember (Spec.up_to_digit (second :: later)) as l1 eqn:L1.
    rewrite <- J, U.
    change (first :: (l1 ++ d :: rest)%list)
      with ((first :: l1) ++ d :: rest)%list.
    rewrite join_app by discriminate.
    rewrite slice_from_app, Hj. reflexivity.
Qed.

Lemma remainder_spec raw :
  Py.lstrip "-" (Py.slice_from (String.length (extract_base_name raw)) raw)
  = Spec.remainder raw.
Proof.
  rewrite extract_base_name_spec. unfold Spec.remainder.
  destruct (after_base_shape raw) as [-> | (c & s & Hc & ->)]; [reflexivity|].
  simpl. now rewrite (isdigit_not_dash c Hc).
Qed.

(** [decode] computes what the specification describes, except where the
    text after the base name ends in a dash: there it raises. *)
Lemma decode_eq raw :
  decode raw
  = let segs := Py.split "-" (Spec.remainder raw) in
    if (1 <? length segs)%nat && Py.is_empty (List.last segs EmptyString)
    then Raise IndexError
    else Ok (Spec.decode raw).
Proof.
  unfold decode, extract_version_info.
  rewrite remainder_spec, extract_base_name_spec.
  unfold Spec.decode, Py.last_part, Py.but_last.
  destruct (Py.split "-" raw) as [|first [|second later]] eqn:E.
  - now destruct (split_not_nil "-" raw).
  - assert (Spec.remainder raw = EmptyString) as ->.
    { unfold Spec.remainder, Spec.base. rewrite E, slice_from_all. reflexivity. }
    simpl. unfold Spec.base. now rewrite E.
  - destruct (Spec.remainder raw) as [|r0 rem] eqn:R; [reflexivity|].
    cbv zeta. cbn [Py.is_empty].
    destruct (1 <? length (Py.split "-" (String r0 rem)))%nat; [|reflexivity].
    destruct (List.last (Py.split "-" (String r0 rem)) EmptyString) as [|c l];
      [reflexivity|].
    cbn [Py.first_char Py.is_empty andb Spec.begins_with_digit].
    rewrite <- isdigit_spec. now destruct (Py.isdigit c).
Qed.

Lemma head_split_digit s :
  starts_with_digit (hd EmptyString (Py.split "-" s)) = starts_with_digit s.
Proof.
  destruct s as [|c s]; [reflexivity|].
  rewrite split_cons. destruct (Ascii.eqb_spec c "-") as [->|_]; reflexivity.
Qed.

Lemma base_name_empty_iff raw :
  extract_base_name raw = EmptyString
  <-> raw = EmptyString \/ dash_digit raw = true.
Proof.
  destruct raw as [|c s]; [split; [now left | reflexivity]|].
  rewrite extract_base_name_spec. unfold Spec.base. rewrite split_cons.
  pose proof (split_not_nil "-" s) as Hne.
  pose proof (head_split_digit s) as Hd.
  destruct (Ascii.eqb_spec c "-") as [->|Hc].
  - destruct (Py.split "-" s) as [|q qs]; [contradiction|].
    cbn [hd] in Hd. cbn [dash_digit Spec.up_to_digit].
    rewrite <- starts_with_digit_spec, <- Hd.
    destruct (starts_with_digit q).
    + split; [now right | reflexivity].
    + split; [discriminate | intros [?|?]; discriminate].
  - split.
    + destruct (tl (Py.split "-" s)) as [|t ts]; [discriminate|].
      unfold Py.join. cbn [String.concat].
      destruct (Spec.up_to_digit (t :: ts)); discriminate.
    + intros [?|H]; [discriminate|].
      simpl in H. destruct c as [[] [] [] [] [] [] [] []];
        try discriminate H. now destruct Hc.
Qed.

Lemma base_name_whole raw :
  Forall (fun seg => starts_with_digit seg = false) (tl (Py.split "-" raw)) ->
  extract_base_name raw = raw.
Proof.
  intros H. rewrite extract_base_name_spec. unfold Spec.base.
  pose proof (join_split "-" raw) as J.
  destruct (Py.split "-" raw) as [|first [|second later]]; try reflexivity.
  cbn [tl] in H. rewrite <- J. f_equal. f_equal. clear J.
  induction H as [|seg segs Hseg _ IH]; [reflexivity|].
  simpl. rewrite <- starts_with_digit_spec, Hseg. now rewrite IH.
Qed.

(** ** VersionComparator *)

Lemma ltb_compare a b :
  Py.lt a b = match String.compare a b with Lt => true | _ => false end.
Proof. reflexivity. Qed.

Lemma compare_flip a b : String.compare b a = CompOpp (String.compare a b).
Proof. apply String.compare_antisym. Qed.

Lemma compare_same a : String.compare a a = Eq.
Proof.
  induction a as [|c a IH]; [reflexivity|].
  cbn [String.compare]. unfold Ascii.compare. now rewrite N.compare_refl.
Qed.

Lemma compare_part_spec p1 p2 :
  compare_part p1 p2
  = let r := Spec.compare_position p1 p2 in if r =? 0 then None else Some r.
Proof.
  unfold compare_part, Spec.compare_position.
  assert (L : (if Py.lt p1 p2 then Some (-1)
               else if Py.lt p2 p1 then Some 1 else None)
              = let r := Spec.sign (String.compare p1 p2) in
                if r =? 0 then None else Some r).
  { rewrite !ltb_compare, (compare_flip p1 p2).
    now destruct (String.compare p1 p2). }
  destruct (Py.int p1) as [n1|], (Py.int p2) as [n2|]; try exact L.
  rewrite Z.gtb_ltb.
  destruct (Z.compare_spec n1 n2) as [->|H|H]; cbn.
  - now rewrite Z.ltb_irrefl.
  - now apply Z.ltb_lt in H as ->.
  - assert ((n1 <? n2) = false) as -> by (apply Z.ltb_ge; lia).
    now apply Z.ltb_lt in H as ->.
Qed.

Lemma position_antisym p1 p2 :
  Spec.compare_position p2 p1 = - Spec.compare_position p1 p2.
Proof.
  unfold Spec.compare_position.
  destruct (Py.int p1) as [n1|], (Py.int p2) as [n2|];
    try (rewrite (compare_flip p1 p2); now destruct (String.compare p1 p2)).
  rewrite (Z.compare_antisym n1 n2). now destruct (n1 ?= n2).
Qed.

Lemma position_refl p : Spec.compare_position p p = 0.
Proof.
  unfold Spec.compare_position.
  destruct (Py.int p); [now rewrite Z.compare_refl | now rewrite compare_same].
Qed.

Lemma segment_spec parts i :
  (if (i <? length parts)%nat then nth i parts EmptyString else "0")
  = Spec.segment parts i.
Proof.
  unfold Spec.segment. destruct (Nat.ltb_spec i (length parts)) as [H|H].
  - rewrite nth_lookup.
    destruct (lookup_lt_is_Some_2 parts i H) as [x ->]. reflexivity.
  - now rewrite lookup_ge_None_2.
Qed.

Lemma compare_loop_spec parts1 parts2 range :
  compare_loop parts1 parts2 range
  = Spec.first_difference
      (map (fun i => Spec.compare_position (Spec.segment parts1 i)
                       (Spec.segment parts2 i)) range).
Proof.
  induction range as [|i range IH]; [reflexivity|].
  cbn [compare_loop map Spec.first_difference].
  rewrite !segment_spec, compare_part_spec. cbv zeta.
  now destruct (_ =? 0).
Qed.

Lemma compare_versions_spec a b : compare_versions a b = Spec.compare a b.
Proof.
  destruct a, b; try reflexivity.
  unfold compare_versions, Spec.compare. cbn [Py.is_empty andb].
  apply compare_loop_spec.
Qed.

Lemma first_difference_opp (f g : nat -> Z) range :
  (forall i, g i = - f i) ->
  Spec.first_difference (map g range) = - Spec.first_difference (map f range).
Proof.
  intros H. induction range as [|i range IH]; [reflexivity|].
  cbn [map Spec.first_difference]. rewrite H, IH.
  destruct (Z.eqb_spec (f i) 0) as [->|Hf]; [reflexivity|].
  destruct (Z.eqb_spec (- f i) 0); [lia | reflexivity].
Qed.

Lemma first_difference_zero (f : nat -> Z) range :
  (forall i, f i = 0) -> Spec.first_difference (map f range) = 0.
Proof.
  intros H. induction range as [|i range IH]; [reflexivity|].
  cbn [map Spec.first_difference]. now rewrite H.
Qed.

Lemma compare_versions_antisym a b :
  compare_versions a b = - compare_versions b a.
Proof.
  rewrite !compare_versions_spec.
  destruct a, b; try reflexivity.
  unfold Spec.compare. rewrite Nat.max_comm.
  apply first_difference_opp. intros i. apply position_antisym.
Qed.

Lemma compare_versions_refl a : compare_versions a a = 0.
Proof.
  rewrite compare_versions_spec. destruct a; [reflexivity|].
  unfold Spec.compare. apply first_difference_zero. intros i. apply position_refl.
Qed.

(** ** SelectionPolicy *)

Lemma bind_run {A B} (m : M A) (k : A -> M B) w :
  (m ≫= k) w
  = match m w with
    | (Ok a, w') => k a w'
    | (Raise e, w') => (Raise e, w')
    end.
Proof. reflexivity. Qed.

Lemma add_compared_nil w : add_compared w [] = w.
Proof. destruct w. unfold add_compared. simpl. now rewrite app_nil_r. Qed.

Lemma add_compared_app w l1 l2 :
  add_compared (add_compared w l1) l2 = add_compared w (l1 ++ l2).
Proof. unfold add_compared. simpl. now rewrite app_assoc. Qed.

Lemma decode_ok_inv d e :
  decode d = Ok e ->
  extract_version_info d = Ok (version e, arch e) /\ rawName e = d.
Proof.
  unfold decode. destruct (extract_version_info d) as [[v a]|]; [|discriminate].
  intros [= <-]. now split.
Qed.

Lemma replaces_eq current best :
  Spec.replaces current best
  = let c := compare_versions (version current) (version best) in
    if c >? 0 then true
    else if c =? 0
         then (String.length (rawName best) <? String.length (rawName current))%nat
         else false.
Proof.
  unfold Spec.replaces. cbv zeta. rewrite Z.gtb_ltb.
  destruct (0 <? _); [reflexivity|]. now destruct (_ =? 0).
Qed.

Lemma latest_loop_spec dirs es :
  Forall2 (fun d e => decode d = Ok e) dirs es ->
  forall best latest_arch w,
  exists calls,
    length calls = length dirs
    /\ latest_loop dirs (rawName best) (version best) latest_arch w
       = (Ok (rawName (Spec.latest best es)), add_compared w calls).
Proof.
  induction 1 as [|d e dirs es Hd _ IH]; intros best la w.
  - exists []. now rewrite add_compared_nil.
  - apply decode_ok_inv in Hd as [Hv <-].
    cbn [latest_loop Spec.latest fold_left]. rewrite bind_run.
    unfold lift at 1. rewrite Hv. rewrite bind_run.
    unfold call_compare_versions at 1.
    fold (add_compared w [(version e, version best)]).
    rewrite replaces_eq. cbv zeta.
    set (w1 := add_compared w _).
    assert (Hstep : forall b' la',
      exists calls, length calls = S (length dirs)
        /\ latest_loop dirs (rawName b') (version b') la' w1
           = (Ok (rawName (Spec.latest b' es)), add_compared w calls)).
    { intros b' la'. destruct (IH b' la' w1) as (calls & Hlen & Heq).
      exists ((version e, version best) :: calls). split; [simpl; lia|].
      rewrite Heq. unfold w1. now rewrite add_compared_app. }
    destruct (_ >? 0); [apply Hstep|].
    destruct (_ =? 0); [|apply Hstep].
    destruct (_ <? _)%nat; apply Hstep.
Qed.

Lemma find_latest_version_spec first rest e es w :
  decode first = Ok e ->
  Forall2 (fun d e => decode d = Ok e) rest es ->
  exists calls,
    length calls = length rest
    /\ find_latest_version (first :: rest) w
       = (Ok (rawName (Spec.latest e es)), add_compared w calls).
Proof.
  intros He Hes. destruct (decode_ok_inv _ _ He) as [Hv Hn].
  destruct rest as [|second rest].
  - apply Forall2_nil_inv_l in Hes as ->. exists [].
    rewrite add_compared_nil, <- Hn. split; reflexivity.
  - unfold find_latest_version. rewrite bind_run. unfold lift at 1. rewrite Hv.
    subst first. apply latest_loop_spec. exact Hes.
Qed.

Lemma others_self d : others d [d] = [].
Proof. unfold others. simpl. now rewrite String.eqb_refl. Qed.

(** ** Removal *)

Section RemovalFacts.

Variable rmtree_fault : string -> option rm_exn.

(** One call of [remove_extension]: it returns, it prints one line about
    the directory, in a real run it has called [rmtree] once, and the
    listing shrinks exactly when the call succeeded in a real run. *)
Lemma remove_extension_run d dry reason w :
  exists ok msg,
    remove_extension rmtree_fault d dry reason w
    = (Ok ok,
       mkWorld (if ok && negb dry then others d (listing w) else listing w)
         (compared w)
         (rmtree_calls w ++ (if dry then [] else [d]))
         (printed w ++ [msg]))
    /\ message_name msg = d
    /\ is_failure msg = negb ok
    /\ (ok = true -> message_reason msg = Some reason)
    /\ (dry = false -> rmtree_fault d <> None -> ok = false).
Proof.
  unfold remove_extension. destruct dry.
  - exists true, (WouldRemove d reason). cbn. rewrite app_nil_r.
    repeat split; congruence.
  - unfold rmtree. destruct (bool_decide (d ∈ listing w)).
    + destruct (rmtree_fault d) as [[]|].
      * exists false, (PermissionDenied d). cbn. repeat split; congruence.
      * exists false, (ErrorRemoving d). cbn. repeat split; congruence.
      * exists true, (Removed d reason). cbn. repeat split; congruence.
    + exists false, (ErrorRemoving d). cbn. repeat split; congruence.
Qed.

Lemma remove_loop_run dirs dry reason : forall counts w,
  exists s f w' msgs,
    remove_loop rmtree_fault dirs dry reason counts w = (Ok (s, f), w')
    /\ printed w' = printed w ++ msgs
    /\ map message_name msgs = dirs
    /\ rmtree_calls w' = rmtree_calls w ++ (if dry then [] else dirs)
    /\ compared w' = compared w
    /\ s = (fst counts + length (List.filter (fun m => negb (is_failure m)) msgs))%nat
    /\ f = (snd counts + length (List.filter is_failure msgs))%nat
    /\ Forall (fun m => is_failure m = false -> message_reason m = Some reason) msgs
    /\ (dry = false -> forall d, In d dirs -> rmtree_fault d <> None ->
        exists m, In m msgs /\ message_name m = d /\ is_failure m = true).
Proof.
  induction dirs as [|d dirs IH]; intros counts w.
  - exists (fst counts), (snd counts), w, []. cbn.
    rewrite !app_nil_r, !Nat.add_0_r. destruct counts as [s f].
    repeat split;
      [destruct dry; now rewrite app_nil_r | apply Forall_nil_2
      | intros _ d []].
  - cbn [remove_loop]. rewrite bind_run.
    destruct (remove_extension_run d dry reason w)
      as (ok & msg & -> & Hname & Hfail & Hreason & Hfault).
    set (w1 := mkWorld _ _ _ _).
    set (counts1 := if ok then (S (fst counts), snd counts)
                    else (fst counts, S (snd counts))).
    destruct (IH counts1 w1)
      as (s & f & w' & msgs & Hrun & Hp & Hn & Hc & Hcmp & Hs & Hf & Hr & Hfl).
    exists s, f, w', (msg :: msgs).
    assert (Hrun' : (if ok
                     then remove_loop rmtree_fault dirs dry reason
                            (S (fst counts), snd counts)
                     else remove_loop rmtree_fault dirs dry reason
                            (fst counts, S (snd counts))) w1
                    = (Ok (s, f), w')).
    { subst counts1. now destruct ok. }
    split; [exact Hrun'|].
    split; [rewrite Hp; subst w1; cbn; now rewrite <- app_assoc|].
    split; [cbn; now rewrite Hname, Hn|].
    split; [rewrite Hc; subst w1; cbn; destruct dry;
            [now rewrite !app_nil_r | now rewrite <- app_assoc]|].
    split; [rewrite Hcmp; reflexivity|].
    split; [subst s counts1; cbn [List.filter]; rewrite Hfail;
            destruct ok; cbn; lia|].
    split; [subst f counts1; cbn [List.filter]; rewrite Hfail;
            destruct ok; cbn; lia|].
    split.
    { constructor; [|exact Hr]. intros Hm. apply Hreason.
      rewrite Hm in Hfail. now destruct ok. }
    intros Hdry x [<-|Hx] Hx'.
    + exists msg. split; [now left|]. split; [exact Hname|].
      now rewrite Hfail, (Hfault Hdry Hx').
    + destruct (Hfl Hdry x Hx Hx') as (m & Hm & Hm').
      exists m. split; [now right | exact Hm'].
Qed.

(** A dry run counts every directory as a success. *)
Lemma remove_loop_dry dirs reason : forall counts w,
  exists w',
    remove_loop rmtree_fault dirs true reason counts w
    = (Ok ((fst counts + length dirs)%nat, snd counts), w').
Proof.
  induction dirs as [|d dirs IH]; intros [s f] w.
  - exists w. cbn. now rewrite Nat.add_0_r.
  - cbn [remove_loop]. rewrite bind_run.
    unfold remove_extension. rewrite bind_run. cbn.
    destruct (IH (S s, f) (mkWorld (listing w) (compared w) (rmtree_calls w)
                             (printed w ++ [WouldRemove d reason])))
      as (w' & ->).
    exists w'. cbn. repeat f_equal. lia.
Qed.

End RemovalFacts.

(** ** Grouper *)

Lemma dict_append_keys_old g k v :
  In k (map fst g) -> map fst (dict_append g k v) = map fst g.
Proof.
  induction g as [|[k' vs] g IH]; [contradiction|].
  cbn [dict_append map fst]. intros Hk.
  destruct (String.eqb_spec k' k) as [->|Hne]; [reflexivity|].
  cbn [map fst]. f_equal. apply IH. destruct Hk; [contradiction | assumption].
Qed.

Lemma dict_append_keys_new g k v :
  ~ In k (map fst g) -> map fst (dict_append g k v) = map fst g ++ [k].
Proof.
  induction g as [|[k' vs] g IH]; [reflexivity|].
  cbn [dict_append map fst]. intros Hk.
  destruct (String.eqb_spec k' k) as [->|Hne]; [destruct Hk; now left|].
  cbn [map fst app]. f_equal. apply IH. intros H. apply Hk. now right.
Qed.

Lemma dict_append_items g k v b ds :
  List.NoDup (map fst g) ->
  In (b, ds) (dict_append g k v) ->
  (b <> k /\ In (b, ds) g)
  \/ (b = k /\ exists vs, In (k, vs) g /\ ds = vs ++ [v])
  \/ (b = k /\ ~ In k (map fst g) /\ ds = [v]).
Proof.
  induction g as [|[k' vs] g IH]; cbn [dict_append map fst]; intros Hnd Hin.
  - destruct Hin as [[= <- <-]|[]]. right; right. auto.
  - apply List.NoDup_cons_iff in Hnd as [Hk' Hnd].
    destruct (String.eqb_spec k' k) as [->|Hne].
    + destruct Hin as [[= <- <-]|Hin].
      * right; left. split; [reflexivity|]. exists vs. split; [now left | reflexivity].
      * left. split; [|now right]. intros ->. apply Hk'.
        apply in_map_iff. now exists (k, ds).
    + destruct Hin as [[= <- <-]|Hin]; [left; split; [assumption | now left]|].
      destruct (IH Hnd Hin) as [[Hb H]|[[Hb (vs' & H & Hds)]|(Hb & H & Hds)]].
      * left. split; [assumption | now right].
      * right; left. split; [assumption|]. exists vs'. split; [now right | assumption].
      * right; right. split; [assumption|]. split; [|assumption].
        intros [?|?]; [now apply Hne | now apply H].
Qed.

Lemma filter_none {A} (f : A -> bool) l :
  (forall x, In x l -> f x = false) -> List.filter f l = [].
Proof.
  induction l as [|x l IH]; [reflexivity|]. intros H. simpl.
  rewrite (H x) by now left. apply IH. intros y Hy. apply H. now right.
Qed.

Lemma groups_of_step dirs g d :
  groups_of dirs g ->
  groups_of (dirs ++ [d]) (dict_append g (extract_base_name d) d).
Proof.
  intros (Hnd & Hitems & Hkeys).
  set (k := extract_base_name d).
  destruct (in_dec String.string_dec k (map fst g)) as [Hk|Hk].
  - split; [now rewrite dict_append_keys_old|]. split.
    + intros b ds Hin. unfold group_of. rewrite List.filter_app. cbn [List.filter].
      fold k. fold (group_of b dirs).
      destruct (dict_append_items _ _ _ _ _ Hnd Hin)
        as [[Hb H]|[[-> (vs & H & ->)]|(_ & H & _)]]; [| |contradiction].
      * apply String.eqb_neq in Hb. rewrite String.eqb_sym, Hb, app_nil_r.
        now apply Hitems.
      * rewrite String.eqb_refl. destruct (Hitems _ _ H) as [<- _].
        split; [reflexivity | now destruct vs].
    + intros x Hx. rewrite dict_append_keys_old by assumption.
      apply in_app_iff in Hx as [Hx|[<-|[]]]; [now apply Hkeys | exact Hk].
  - split.
    { rewrite dict_append_keys_new by assumption.
      apply List.NoDup_rev in Hnd. rewrite <- (rev_involutive (_ ++ _)).
      apply List.NoDup_rev. rewrite rev_app_distr. cbn.
      apply List.NoDup_cons; [|exact Hnd]. now rewrite <- in_rev. }
    split.
    + intros b ds Hin. unfold group_of. rewrite List.filter_app. cbn [List.filter].
      fold k. fold (group_of b dirs).
      destruct (dict_append_items _ _ _ _ _ Hnd Hin)
        as [[Hb H]|[[-> (vs & H & ->)]|(-> & _ & ->)]].
      * apply String.eqb_neq in Hb. rewrite String.eqb_sym, Hb, app_nil_r.
        now apply Hitems.
      * destruct Hk. apply in_map_iff. now exists (k, vs).
      * rewrite String.eqb_refl. split; [|discriminate].
        unfold group_of. rewrite filter_none; [reflexivity|].
        intros x Hx. apply String.eqb_neq. intros Hb. apply Hk.
        rewrite <- Hb. now apply Hkeys.
    + intros x Hx. rewrite dict_append_keys_new by assumption.
      apply in_app_iff. apply in_app_iff in Hx as [Hx|[<-|[]]].
      * left. now apply Hkeys.
      * right. now left.
Qed.

Lemma groups_of_fold dirs : forall dirs0 g,
  groups_of dirs0 g ->
  groups_of (dirs0 ++ dirs)
    (fold_left (fun grouped ext_dir =>
                  dict_append grouped (extract_base_name ext_dir) ext_dir)
       dirs g).
Proof.
  induction dirs as [|d dirs IH]; intros dirs0 g H.
  - now rewrite app_nil_r.
  - cbn [fold_left]. rewrite (app_assoc dirs0 [d] dirs : dirs0 ++ d :: dirs = _).
    apply IH. now apply groups_of_step.
Qed.

(** The groups partition the listing by base name. *)
Lemma group_extensions_by_base_name_spec dirs :
  groups_of dirs (group_extensions_by_base_name dirs).
Proof.
  apply (groups_of_fold dirs [] []).
  split; [constructor|]. split; intros; contradiction.
Qed.

(** ** The decision loop *)

Lemma latest_loop_run dirs : forall latest latest_version latest_arch w r w',
  latest_loop dirs latest latest_version latest_arch w = (r, w') ->
  (exists calls, w' = add_compared w calls)
  /\ (forall l, r = Ok l -> forall d, In d dirs -> decodes d).
Proof.
  induction dirs as [|d dirs IH]; intros l lv la w r w'.
  - intros [= <- <-]. split; [exists []; now rewrite add_compared_nil|].
    intros _ _ _ [].
  - cbn [latest_loop]. rewrite bind_run. unfold lift at 1.
    destruct (extract_version_info d) as [[v a]|e] eqn:Hd.
    + rewrite bind_run. unfold call_compare_versions at 1.
      fold (add_compared w [(v, lv)]). set (w1 := add_compared w _).
      intros H.
      assert (exists l' lv' la', latest_loop dirs l' lv' la' w1 = (r, w'))
        as (l' & lv' & la' & H').
      { destruct (_ >? 0); [eauto|]. destruct (_ =? 0); [|eauto].
        destruct (_ <? _)%nat; eauto. }
      destruct (IH _ _ _ _ _ _ H') as [(calls & ->) Hok]. split.
      * exists ((v, lv) :: calls). unfold w1. now rewrite add_compared_app.
      * intros x Hx y [<-|Hy]; [now exists (v, a) | now apply (Hok x)].
    + intros [= <- <-]. split; [exists []; now rewrite add_compared_nil|].
      discriminate.
Qed.

Lemma find_latest_version_run ds w r w' :
  find_latest_version ds w = (r, w') ->
  (exists calls, w' = add_compared w calls)
  /\ (forall l, r = Ok l ->
      (2 <= length ds)%nat -> forall d, In d ds -> decodes d).
Proof.
  destruct ds as [|first [|second rest]].
  - intros [= <- <-]. split; [exists []; now rewrite add_compared_nil|].
    discriminate.
  - intros [= <- <-]. split; [exists []; now rewrite add_compared_nil|].
    cbn. intros; lia.
  - unfold find_latest_version. rewrite bind_run. unfold lift at 1.
    destruct (extract_version_info first) as [[v a]|e] eqn:Hd.
    + intros H. destruct (latest_loop_run _ _ _ _ _ _ _ H) as [Hw Hok].
      split; [exact Hw|]. intros l -> _ d [<-|Hin];
        [now exists (v, a) | now apply (Hok l)].
    + intros [= <- <-]. split; [exists []; now rewrite add_compared_nil|].
      discriminate.
Qed.

Lemma latest_loop_same l v a dirs :
  extract_version_info l = Ok (v, a) ->
  (forall d, In d dirs -> d = l) ->
  forall latest_arch w,
  exists calls, latest_loop dirs l v latest_arch w = (Ok l, add_compared w calls).
Proof.
  intros Hl. induction dirs as [|d dirs IH]; intros Hall la w.
  - exists []. now rewrite add_compared_nil.
  - rewrite (Hall d) by now left.
    cbn [latest_loop]. rewrite bind_run. unfold lift at 1. rewrite Hl.
    rewrite bind_run. unfold call_compare_versions at 1.
    fold (add_compared w [(v, v)]).
    rewrite compare_versions_refl, Nat.ltb_irrefl. cbn.
    destruct (IH (fun y Hy => Hall y (or_intror Hy)) la (add_compared w [(v, v)]))
      as (calls & ->).
    exists ((v, v) :: calls). now rewrite add_compared_app.
Qed.

Lemma find_latest_version_same l ds w :
  ds <> [] ->
  (forall d, In d ds -> d = l) ->
  ((2 <= length ds)%nat -> decodes l) ->
  exists calls, find_latest_version ds w = (Ok l, add_compared w calls).
Proof.
  intros Hne Hall Hdec. destruct ds as [|first [|second rest]]; [contradiction| |].
  - exists []. rewrite add_compared_nil, (Hall first) by now left. reflexivity.
  - destruct Hdec as [[v a] Hl]; [cbn; lia|].
    rewrite (Hall first) by now left.
    unfold find_latest_version. rewrite bind_run. unfold lift at 1. rewrite Hl.
    apply (latest_loop_same l v a); [exact Hl|].
    intros d Hd. apply Hall. now right.
Qed.

Lemma others_in latest ds d : In d ds -> d <> latest -> In d (others latest ds).
Proof.
  intros Hd Hne. apply List.filter_In. split; [exact Hd|].
  apply negb_true_iff. now apply String.eqb_neq.
Qed.

Lemma others_same latest ds : (forall d, In d ds -> d = latest) -> others latest ds = [].
Proof.
  intros H. apply filter_none. intros d Hd.
  rewrite (H d Hd), String.eqb_refl. reflexivity.
Qed.

Section Decide.

Variable keep_list : gset string.
Variable args : Args.

(** What a completed decision loop has put into the lists. *)
Lemma decide_loop_run gs : forall p w p' w',
  decide_loop keep_list args gs p w = (Ok p', w') ->
  listing w' = listing w
  /\ (forall d, In d (to_remove p) -> In d (to_remove p'))
  /\ (forall d, In d (old_versions_to_remove p) ->
      In d (old_versions_to_remove p'))
  /\ (forall b ds, In (b, ds) gs -> b ∉ keep_list ->
      forall d, In d ds -> In d (to_remove p'))
  /\ (forall b ds, In (b, ds) gs -> b ∈ keep_list ->
      keep_all_versions args = false ->
      exists latest,
        (forall d, In d ds -> d <> latest -> In d (old_versions_to_remove p'))
        /\ ((2 <= length ds)%nat -> forall d, In d ds -> decodes d)).
Proof.
  induction gs as [|[b ds] gs IH]; intros p w p' w'.
  - intros [= <- <-]. repeat split; auto; intros ? ? [].
  - cbn [decide_loop]. case_bool_decide as Hb.
    + destruct (keep_all_versions args) eqn:Hall.
      * intros H. destruct (IH _ _ _ _ H) as (Hl & Hr & Ho & Hun & Hold).
        repeat split; auto.
        -- intros b' ds' [[= <- <-]|Hin] Hb'; [contradiction | eauto].
        -- intros b' ds' [[= <- <-]|Hin] Hb'; [discriminate | eauto].
      * rewrite bind_run.
        destruct (find_latest_version ds w) as [[l|e] w1] eqn:F; [|discriminate].
        destruct (find_latest_version_run _ _ _ _ F) as [(calls & ->) Hdec].
        intros H. destruct (IH _ _ _ _ H) as (Hl & Hr & Ho & Hun & Hold).
        cbn [to_remove old_versions_to_remove] in Hr, Ho.
        repeat split; auto.
        -- intros d Hd. apply Ho, in_app_iff. now left.
        -- intros b' ds' [[= <- <-]|Hin] Hb'; [contradiction | eauto].
        -- intros b' ds' [[= <- <-]|Hin] Hb' _; [|eauto].
           exists l. split; [|now apply (Hdec l)].
           intros d Hd Hne. apply Ho, in_app_iff. right. now apply others_in.
    + intros H. destruct (IH _ _ _ _ H) as (Hl & Hr & Ho & Hun & Hold).
      cbn [to_remove old_versions_to_remove] in Hr, Ho.
      repeat split; auto.
      * intros d Hd. apply Hr, in_app_iff. now left.
      * intros b' ds' [[= <- <-]|Hin] Hb'; [|eauto].
        intros d Hd. apply Hr, in_app_iff. now right.
      * intros b' ds' [[= <- <-]|Hin] Hb'; [contradiction | eauto].
Qed.

Lemma decide_loop_settled gs :
  Forall (settled keep_list args) gs ->
  forall p w,
  exists p' w',
    decide_loop keep_list args gs p w = (Ok p', w')
    /\ listing w' = listing w
    /\ to_remove p' = to_remove p
    /\ old_versions_to_remove p' = old_versions_to_remove p
    /\ (forall d, In d (to_keep p) -> In d (to_keep p'))
    /\ (forall b ds d, In (b, ds) gs -> In d ds -> In d (to_keep p')).
Proof.
  induction 1 as [|[b ds] gs (Hb & Hne & Hg) _ IH]; intros p w.
  - exists p, w. repeat split; auto. intros ? ? ? [].
  - cbn [fst snd] in Hb, Hne, Hg. cbn [decide_loop].
    rewrite bool_decide_eq_true_2 by exact Hb.
    destruct (keep_all_versions args) eqn:Hall.
    + destruct (IH (mkPlan (to_remove p) (to_keep p ++ ds)
                      (old_versions_to_remove p)) w)
        as (p' & w' & -> & Hl & Hr & Ho & Hk & Hgs).
      exists p', w'. cbn [to_remove to_keep old_versions_to_remove] in *.
      repeat split; auto.
      * intros d Hd. apply Hk, in_app_iff. now left.
      * intros b' ds' d [[= <- <-]|Hin] Hd; [|eauto].
        apply Hk, in_app_iff. now right.
    + destruct Hg as [?|(l & Hsame & Hdec)]; [discriminate|].
      rewrite bind_run.
      destruct (find_latest_version_same l ds w Hne Hsame Hdec) as (calls & ->).
      rewrite (others_same l ds Hsame), app_nil_r.
      destruct (IH (mkPlan (to_remove p) (to_keep p ++ [l])
                      (old_versions_to_remove p)) (add_compared w calls))
        as (p' & w' & -> & Hl & Hr & Ho & Hk & Hgs).
      exists p', w'. cbn [to_remove to_keep old_versions_to_remove] in *.
      repeat split; auto.
      * intros d Hd. apply Hk, in_app_iff. now left.
      * intros b' ds' d [[= <- <-]|Hin] Hd; [|eauto].
        apply Hk, in_app_iff. right. left. symmetry. now apply Hsame.
Qed.

End Decide.

(** ** Running twice *)

Lemma filter_filter {A} (f g : A -> bool) l :
  List.filter g (List.filter f l) = List.filter (fun x => f x && g x) l.
Proof.
  induction l as [|x l IH]; [reflexivity|]. cbn [List.filter].
  destruct (f x); cbn [List.filter andb]; [|exact IH].
  destruct (g x); now rewrite IH.
Qed.

Lemma filter_all {A} (l : list A) : List.filter (fun _ => true) l = l.
Proof. induction l as [|x l IH]; [reflexivity|]. cbn. now rewrite IH. Qed.

Lemma filter_length_perm {A} (f : A -> bool) l l' :
  Permutation l l' -> length (List.filter f l) = length (List.filter f l').
Proof.
  induction 1 as [|x l l' _ IH|x y l|l l' l'' _ IH1 _ IH2]; cbn [List.filter].
  - reflexivity.
  - destruct (f x); cbn; now rewrite IH.
  - now destruct (f x), (f y).
  - now rewrite IH1.
Qed.

Section Twice.

Variable rmtree_fault : string -> option rm_exn.
Variable keep_list : gset string.
Variable args : Args.

(** A real removal loop without failures leaves the listing without the
    directories it was given. *)
Lemma remove_loop_listing dirs reason : forall counts w s f w',
  remove_loop rmtree_fault dirs false reason counts w = (Ok (s, f), w') ->
  (snd counts <= f)%nat
  /\ (f = snd counts ->
      exists keepf, listing w' = List.filter keepf (listing w)
                    /\ forall d, In d dirs -> keepf d = false).
Proof.
  induction dirs as [|d dirs IH]; intros counts w s f w'.
  - intros [= -> <-]. split; [cbn; lia|].
    intros _. exists (fun _ => true). split; [now rewrite filter_all|].
    intros ? [].
  - cbn [remove_loop]. rewrite bind_run.
    destruct (remove_extension_run rmtree_fault d false reason w)
      as (ok & msg & -> & _). destruct ok; cbn [andb negb]; intros H.
    + destruct (IH _ _ _ _ _ H) as [Hle Hkeep]. cbn [snd] in Hle, Hkeep.
      split; [exact Hle|]. intros Hf.
      destruct (Hkeep Hf) as (keepf & Hl & Hout). cbn [listing] in Hl.
      exists (fun x => negb (String.eqb x d) && keepf x). split.
      * rewrite Hl. unfold others. apply filter_filter.
      * intros x [<-|Hx]; [now rewrite String.eqb_refl|].
        rewrite (Hout x Hx). apply andb_false_r.
    + destruct (IH _ _ _ _ _ H) as [Hle _]. cbn [snd] in Hle.
      split; [lia|]. intros Hf. lia.
Qed.

Lemma removal_phase_listing p w s f w' :
  removal_phase rmtree_fault p false w = (Ok (s, f), w') ->
  f = O ->
  exists keepf,
    listing w' = List.filter keepf (listing w)
    /\ forall d, In d (to_remove p) \/ In d (old_versions_to_remove p) ->
                 keepf d = false.
Proof.
  unfold removal_phase. rewrite bind_run.
  destruct (remove_loop rmtree_fault (to_remove p) false _ (O, O) w)
    as [[[s1 f1]|e] w1] eqn:R1; [|discriminate].
  intros R2 ->.
  destruct (remove_loop_listing _ _ _ _ _ _ _ R2) as [Hle H2].
  cbn [snd] in Hle, H2. assert (f1 = O) as -> by lia.
  destruct (remove_loop_listing _ _ _ _ _ _ _ R1) as [_ H1].
  destruct (H1 eq_refl) as (k1 & Hl1 & Hout1).
  destruct (H2 eq_refl) as (k2 & Hl2 & Hout2).
  exists (fun x => k1 x && k2 x). split.
  - rewrite Hl2, Hl1. apply filter_filter.
  - intros d [Hd|Hd]; [now rewrite (Hout1 d Hd)|].
    rewrite (Hout2 d Hd). apply andb_false_r.
Qed.

Lemma decide_phase_listing w r w' :
  decide_phase keep_list args w = (r, w') ->
  forall p, r = Ok p -> listing w' = listing w.
Proof.
  unfold decide_phase. rewrite bind_run. cbn. intros H p ->.
  now destruct (decide_loop_run _ _ _ _ _ _ _ H) as [Hl _].
Qed.

(** A run that exits with status 0 has decided, and what it decided to
    remove is gone from the listing. *)
Lemma main_clean_run w w1 :
  dry_run args = false ->
  main rmtree_fault keep_list args w = (Ok 0, w1) ->
  exists p wd keepf,
    decide_phase keep_list args w = (Ok p, wd)
    /\ listing w1 = List.filter keepf (listing w)
    /\ forall d, In d (to_remove p) \/ In d (old_versions_to_remove p) ->
                 keepf d = false.
Proof.
  intros Hdry. unfold main. rewrite bind_run.
  destruct (decide_phase keep_list args w) as [[p|e] wd] eqn:D; [|discriminate].
  pose proof (decide_phase_listing _ _ _ D p eq_refl) as Hl.
  rewrite Hdry. intros H. exists p, wd.
  assert (to_remove p = [] /\ old_versions_to_remove p = [] /\ w1 = wd
          \/ exists s f, removal_phase rmtree_fault p false wd = (Ok (s, f), w1)
                         /\ f = O) as [(Hr & Ho & ->)|(s & f & R & Hf)].
  { assert (forall (k : M Z) , k wd = (Ok 0, w1) ->
              k = (counts ← removal_phase rmtree_fault p false;
                   mret (if (snd counts =? 0)%nat then 0 else 1)) ->
              exists s f, removal_phase rmtree_fault p false wd = (Ok (s, f), w1)
                          /\ f = O) as Hrem.
    { intros k Hk ->. rewrite bind_run in Hk.
      destruct (removal_phase rmtree_fault p false wd) as [[[s f]|e] w2];
        [|discriminate].
      cbn in Hk. exists s, f. destruct f; [|discriminate].
      injection Hk as <-. now split. }
    destruct (to_remove p) as [|x xs], (old_versions_to_remove p) as [|y ys];
      [left; injection H as <-; auto | right; eauto ..]. }
  - exists (fun _ => true). split; [reflexivity|].
    split; [now rewrite filter_all, Hl|].
    rewrite Hr, Ho. intros d [[]|[]].
  - destruct (removal_phase_listing _ _ _ _ _ R Hf) as (keepf & Hk & Hout).
    exists keepf. split; [reflexivity|]. split; [now rewrite Hk, Hl | exact Hout].
Qed.

End Twice.

Section Survivors.

Variable keep_list : gset string.
Variable args : Args.

(** After a completed decision over [listing w], any listing made of
    directories that were not marked for removal has only settled
    groups. *)
Lemma survivors_settled w p wd dirs2 :
  decide_phase keep_list args w = (Ok p, wd) ->
  (forall d, In d dirs2 ->
     In d (listing w) /\ ~ In d (to_remove p)
     /\ ~ In d (old_versions_to_remove p)) ->
  (forall b, length (group_of b dirs2) <= length (group_of b (listing w)))%nat ->
  Forall (settled keep_list args) (group_extensions_by_base_name dirs2).
Proof.
  unfold decide_phase. rewrite bind_run. cbn [get_installed_extensions].
  intros D Hsurv Hlen.
  destruct (decide_loop_run _ _ _ _ _ _ _ D) as (_ & _ & _ & Hun & Hold).
  destruct (group_extensions_by_base_name_spec (listing w)) as (_ & Hitems1 & Hkeys1).
  destruct (group_extensions_by_base_name_spec dirs2) as (_ & Hitems2 & _).
  apply List.Forall_forall. intros [b ds] Hg.
  destruct (Hitems2 b ds Hg) as [Hds Hne].
  assert (Hmem : forall d, In d ds ->
            In d (group_of b (listing w)) /\ ~ In d (to_remove p)
            /\ ~ In d (old_versions_to_remove p)).
  { intros d Hd. rewrite Hds in Hd. apply List.filter_In in Hd as [Hd Hb].
    destruct (Hsurv d Hd) as (Hin & Hr & Ho). split; [|now split].
    apply List.filter_In. now split. }
  destruct ds as [|y ds']; [contradiction|].
  destruct (Hmem y (or_introl eq_refl)) as (Hy & Hyr & Hyo).
  apply List.filter_In in Hy as [Hy Hyb]. apply String.eqb_eq in Hyb.
  pose proof (Hkeys1 y Hy) as Hk. rewrite Hyb in Hk.
  apply in_map_iff in Hk as ([b' ds0] & Hb' & Hg0). cbn in Hb'. subst b'.
  destruct (Hitems1 b ds0 Hg0) as [Hds0 _].
  assert (Hb : b ∈ keep_list).
  { destruct (decide (b ∈ keep_list)) as [?|Hnb]; [assumption|].
    destruct Hyr. apply (Hun b ds0 Hg0 Hnb). rewrite Hds0.
    apply List.filter_In. split; [exact Hy|]. now apply String.eqb_eq. }
  split; [exact Hb|]. split; [discriminate|]. cbn [snd].
  destruct (keep_all_versions args) eqn:Hall; [now left | right].
  destruct (Hold b ds0 Hg0 Hb eq_refl) as (l & Hl & Hdec).
  assert (Hsame : forall d, In d (y :: ds') -> d = l).
  { intros d Hd. destruct (Hmem d Hd) as (Hd0 & _ & Hdo).
    destruct (String.string_dec d l) as [?|Hne']; [assumption|].
    destruct Hdo. apply Hl; [now rewrite Hds0 | assumption]. }
  exists l. split; [exact Hsame|].
  intros H2. rewrite <- (Hsame y (or_introl eq_refl)).
  apply Hdec.
  - specialize (Hlen b). rewrite <- Hds, <- Hds0 in Hlen. lia.
  - rewrite Hds0. apply List.filter_In. split; [exact Hy|].
    now apply String.eqb_eq.
Qed.

End Survivors.

Section RemovalPhase.

Variable rmtree_fault : string -> option rm_exn.

(** Both removal loops of [main] together. *)
Lemma removal_phase_run p dry w :
  exists s f w' msgs1 msgs2,
    removal_phase rmtree_fault p dry w = (Ok (s, f), w')
    /\ printed w' = printed w ++ msgs1 ++ msgs2
    /\ map message_name msgs1 = to_remove p
    /\ map message_name msgs2 = old_versions_to_remove p
    /\ rmtree_calls w'
       = rmtree_calls w
         ++ (if dry then [] else to_remove p ++ old_versions_to_remove p)
    /\ compared w' = compared w
    /\ s = length (List.filter (fun m => negb (is_failure m)) (msgs1 ++ msgs2))
    /\ f = length (List.filter is_failure (msgs1 ++ msgs2))
    /\ Forall (fun m => is_failure m = false ->
                        message_reason m = Some "not in keep list") msgs1
    /\ Forall (fun m => is_failure m = false ->
                        message_reason m = Some "old version") msgs2
    /\ (dry = false ->
        forall d, In d (to_remove p ++ old_versions_to_remove p) ->
                  rmtree_fault d <> None ->
        exists m, In m (msgs1 ++ msgs2) /\ message_name m = d
                  /\ is_failure m = true).
Proof.
  unfold removal_phase. rewrite bind_run.
  destruct (remove_loop_run rmtree_fault (to_remove p) dry "not in keep list"
              (O, O) w)
    as (s1 & f1 & w1 & msgs1 & -> & Hp1 & Hn1 & Hc1 & Hcmp1 & Hs1 & Hf1 & Hr1 & Hfl1).
  destruct (remove_loop_run rmtree_fault (old_versions_to_remove p) dry
              "old version" (s1, f1) w1)
    as (s2 & f2 & w2 & msgs2 & -> & Hp2 & Hn2 & Hc2 & Hcmp2 & Hs2 & Hf2 & Hr2 & Hfl2).
  exists s2, f2, w2, msgs1, msgs2. cbn [fst snd] in *.
  split; [reflexivity|].
  split; [now rewrite Hp2, Hp1, <- app_assoc|].
  split; [exact Hn1|]. split; [exact Hn2|].
  split; [rewrite Hc2, Hc1; destruct dry;
          [now rewrite !app_nil_r | now rewrite <- app_assoc]|].
  split; [now rewrite Hcmp2, Hcmp1|].
  split; [rewrite List.filter_app, length_app; lia|].
  split; [rewrite List.filter_app, length_app; lia|].
  split; [exact Hr1|]. split; [exact Hr2|].
  intros Hdry d Hd Hfault. apply in_app_iff in Hd as [Hd|Hd].
  - destruct (Hfl1 Hdry d Hd Hfault) as (m & Hm & Hm').
    exists m. split; [apply in_app_iff; now left | exact Hm'].
  - destruct (Hfl2 Hdry d Hd Hfault) as (m & Hm & Hm').
    exists m. split; [apply in_app_iff; now right | exact Hm'].
Qed.

End RemovalPhase.

Lemma sign_range c : Spec.sign c = -1 \/ Spec.sign c = 0 \/ Spec.sign c = 1.
Proof. destruct c; auto. Qed.

Lemma position_range x y :
  Spec.compare_position x y = -1 \/ Spec.compare_position x y = 0
  \/ Spec.compare_position x y = 1.
Proof.
  unfold Spec.compare_position.
  destruct (Py.int x), (Py.int y); apply sign_range.
Qed.

Lemma first_difference_range (f : nat -> Z) range :
  (forall i, f i = -1 \/ f i = 0 \/ f i = 1) ->
  Spec.first_difference (map f range) = -1
  \/ Spec.first_difference (map f range) = 0
  \/ Spec.first_difference (map f range) = 1.
Proof.
  intros H. induction range as [|i range IH]; cbn [map Spec.first_difference].
  - auto.
  - destruct (f i =? 0); [exact IH | apply H].
Qed.

Lemma compare_versions_range a b :
  compare_versions a b = -1 \/ compare_versions a b = 0
  \/ compare_versions a b = 1.
Proof.
  rewrite compare_versions_spec. destruct a, b; cbn [Spec.compare]; auto.
  apply first_difference_range. intros i. apply position_range.
Qed.

(** * The claims *)

(** C1. The specification describes [decode] for every raw name, and the
    program follows that description wherever it returns ([decode_eq]).
    For the raw name [pkg-1.0-] the description gives base name [pkg],
    version [1.0] and an empty architecture (the last segment of the
    remainder does not begin with a digit), while [extract_version_info]
    raises [IndexError] on [parts[-1][0]]. *)
Theorem decode_trailing_dash_diverges :
  decode "pkg-1.0-" = Raise IndexError
  /\ Spec.decode "pkg-1.0-" = mkEntry "pkg-1.0-" "pkg" "1.0" "".
Proof. split; reflexivity. Qed.

(** C2. Decoding is not total: [extract_version_info] indexes the first
    character of the last segment of the remainder without checking that
    the segment is non-empty, so a raw name whose version part ends in a
    dash makes it raise. *)
Theorem decode_not_total :
  extract_version_info "pkg-1.0-" = Raise IndexError
  /\ ~ (forall raw, exists e, decode raw = Ok e).
Proof.
  split; [reflexivity|]. intros H. destruct (H "pkg-1.0-") as [e He].
  discriminate He.
Qed.

(** C3. [compare_versions] is the comparison the specification words:
    empty versions first, then position by position over the longer of the
    two dotted lists with missing segments read as "0", numerically where
    both segments parse and lexically otherwise, the first difference
    deciding; with the two sample comparisons. *)
Theorem compare_versions_as_specified :
  (forall a b, compare_versions a b = Spec.compare a b)
  /\ (forall a b, compare_versions a b = -1 \/ compare_versions a b = 0
                  \/ compare_versions a b = 1)
  /\ compare_versions "1.2.3" "1.2.10" = -1
  /\ compare_versions "1.2" "1.2.0" = 0.
Proof.
  split; [exact compare_versions_spec|].
  split; [exact compare_versions_range | split; reflexivity].
Qed.

(** C4. The claim speaks of every group whose base name is in the keep
    set, and the code does not deliver it for all of them.  For the kept
    group of the directories [pkg-1.0] and [pkg-1.0-] the scan of the
    specification selects [pkg-1.0-] (the versions compare equal and its raw
    name is longer), which would make [pkg-1.0] an old version.  In the
    code [find_latest_version] raises [IndexError] when it decodes
    [pkg-1.0-], nothing catches it, and the decision loop and [main] stop
    with the exception: no directory of the group is kept, none is marked
    as an old version and nothing is printed. *)
Theorem kept_group_scan_raises :
  let names := ["pkg-1.0"; "pkg-1.0-"] in
  let args := mkArgs false false in
  group_extensions_by_base_name names = [("pkg", names)]
  /\ "pkg" ∈ ({["pkg"]} : gset string)
  /\ Spec.decode "pkg-1.0" = mkEntry "pkg-1.0" "pkg" "1.0" ""
  /\ Spec.decode "pkg-1.0-" = mkEntry "pkg-1.0-" "pkg" "1.0" ""
  /\ rawName (Spec.latest (Spec.decode "pkg-1.0") [Spec.decode "pkg-1.0-"])
     = "pkg-1.0-"
  /\ decode "pkg-1.0-" = Raise IndexError
  /\ find_latest_version names (initial names) = (Raise IndexError, initial names)
  /\ decide_phase {["pkg"]} args (initial names) = (Raise IndexError, initial names)
  /\ main (fun _ => None) {["pkg"]} args (initial names)
     = (Raise IndexError, initial names).
Proof.
  cbv zeta. split; [vm_compute; reflexivity|].
  split; [apply elem_of_singleton; reflexivity|].
  repeat split; vm_compute; reflexivity.
Qed.

(** C5. The end-to-end example: with [a.b] to keep and all versions not
    kept, [a.b-1.2.0] is kept, [a.b-1.0.0] is removed as an old version and
    [c.d-1.0.0] as unwanted. *)
Theorem end_to_end_decisions :
  exists p,
    fst (decide_phase {["a.b"]} (mkArgs false false)
           (initial ["a.b-1.0.0"; "a.b-1.2.0"; "c.d-1.0.0"])) = Ok p
    /\ decisions p
       = [("a.b-1.2.0", Keep); ("c.d-1.0.0", RemoveUnwanted);
          ("a.b-1.0.0", RemoveOldVersion)].
Proof.
  exists (mkPlan ["c.d-1.0.0"] ["a.b-1.2.0"] ["a.b-1.0.0"]).
  split; vm_compute; reflexivity.
Qed.

(** C6, as stated, fails: the base name of a raw name that begins with a
    dash and a digit is empty. *)
Lemma base_name_empty_counterexample :
  extract_base_name "-1.0" = ""
  /\ decode "-1.0" = Ok (mkEntry "-1.0" "" "1.0" "").
Proof. split; reflexivity. Qed.

(** C6, amended. For a raw name of ASCII characters ([str.isascii]), where
    the digits are the ten characters [0] to [9]: the base name is non-empty
    unless the raw name is empty or begins with a dash followed by a digit,
    and in these two cases it is empty; when no segment after the first
    begins with a digit, the base name is the whole raw name. *)
Theorem base_name_nonempty_unless_dash_digit (raw : string) :
  (Py.isascii raw = true -> raw <> "" -> dash_digit raw = false ->
   extract_base_name raw <> "")
  /\ (raw = "" \/ dash_digit raw = true -> extract_base_name raw = "")
  /\ (Py.isascii raw = true ->
      Forall (fun seg => starts_with_digit seg = false) (tl (Py.split "-" raw)) ->
      extract_base_name raw = raw).
Proof.
  split; [|split].
  - intros _ Hne Hdd Hbase. apply base_name_empty_iff in Hbase as [?|Hd];
      [contradiction | congruence].
  - apply base_name_empty_iff.
  - intros _. apply base_name_whole.
Qed.

Lemma base_name_nonempty_witness :
  extract_base_name "esbenp.prettier-vscode-5.9.3" <> ""
  /\ extract_base_name "-1.0" = ""
  /\ extract_base_name "no-digits-here" = "no-digits-here".
Proof.
  split; [|split].
  - apply (base_name_nonempty_unless_dash_digit "esbenp.prettier-vscode-5.9.3");
      [reflexivity | discriminate | reflexivity].
  - apply (base_name_nonempty_unless_dash_digit "-1.0"). right. reflexivity.
  - apply (base_name_nonempty_unless_dash_digit "no-digits-here");
      [reflexivity | repeat constructor].
Defined.

(** C7, as stated, fails: a group of one directory whose base name is not
    in the keep set is removed as unwanted. *)
Lemma single_entry_counterexample :
  fst (decide_phase ∅ (mkArgs false false) (initial ["c.d-1.0.0"]))
  = Ok (mkPlan ["c.d-1.0.0"] [] [])
  /\ decisions (mkPlan ["c.d-1.0.0"] [] []) = [("c.d-1.0.0", RemoveUnwanted)].
Proof. split; vm_compute; reflexivity. Qed.

(** C7, amended. A group of exactly one directory is decided by the keep
    list alone, whatever the flags, the name and the rest of the inventory.
    [find_latest_version] returns the one directory at once and leaves the
    world (so the trace of comparisons) unchanged.  If the base name is in
    the keep set the directory is kept and nothing is marked for removal;
    if it is not, the directory is marked for removal as unwanted, also
    under [--keep-all-versions].  In both cases the loop goes on with the
    remaining groups in the same world, and the directory's name is never
    decoded. *)
Theorem single_entry_group_decided_by_keep_list
    (keep_list : gset string) (args : Args) (b d : string)
    (groups : list (string * list string)) (p : Plan) (w : World) :
  find_latest_version [d] w = (Ok d, w)
  /\ (b ∈ keep_list ->
      decide_loop keep_list args ((b, [d]) :: groups) p w
      = decide_loop keep_list args groups
          (mkPlan (to_remove p) (to_keep p ++ [d]) (old_versions_to_remove p)) w)
  /\ (b ∉ keep_list ->
      decide_loop keep_list args ((b, [d]) :: groups) p w
      = decide_loop keep_list args groups
          (mkPlan (to_remove p ++ [d]) (to_keep p) (old_versions_to_remove p)) w)
  /\ (b ∈ keep_list ->
      decide_loop keep_list args [(b, [d])] p w
      = (Ok (mkPlan (to_remove p) (to_keep p ++ [d]) (old_versions_to_remove p)), w))
  /\ (b ∉ keep_list ->
      decide_loop keep_list args [(b, [d])] p w
      = (Ok (mkPlan (to_remove p ++ [d]) (to_keep p) (old_versions_to_remove p)), w)).
Proof.
  assert (Hin : forall gs, b ∈ keep_list ->
            decide_loop keep_list args ((b, [d]) :: gs) p w
            = decide_loop keep_list args gs
                (mkPlan (to_remove p) (to_keep p ++ [d])
                   (old_versions_to_remove p)) w).
  { intros gs Hb. cbn [decide_loop].
    rewrite bool_decide_eq_true_2 by exact Hb.
    destruct (keep_all_versions args); [reflexivity|].
    rewrite bind_run. cbn [find_latest_version]. unfold mret, M_ret.
    now rewrite others_self, app_nil_r. }
  assert (Hout : forall gs, b ∉ keep_list ->
            decide_loop keep_list args ((b, [d]) :: gs) p w
            = decide_loop keep_list args gs
                (mkPlan (to_remove p ++ [d]) (to_keep p)
                   (old_versions_to_remove p)) w).
  { intros gs Hb. cbn [decide_loop].
    rewrite bool_decide_eq_false_2 by exact Hb. reflexivity. }
  split; [reflexivity|].
  split; [apply Hin|]. split; [apply Hout|].
  split; intros Hb; [rewrite Hin by exact Hb | rewrite Hout by exact Hb];
    reflexivity.
Qed.

Lemma single_entry_group_decided_witness :
  decide_loop {["pkg"]} (mkArgs false false) [("pkg", ["pkg-1.0-"])]
    (mkPlan [] [] []) (initial ["pkg-1.0-"])
  = (Ok (mkPlan [] ["pkg-1.0-"] []), initial ["pkg-1.0-"])
  /\ decide_loop {["pkg"]} (mkArgs false true) [("c.d", ["c.d-1.0.0"])]
       (mkPlan [] [] []) (initial ["c.d-1.0.0"])
     = (Ok (mkPlan ["c.d-1.0.0"] [] []), initial ["c.d-1.0.0"]).
Proof.
  split.
  - apply (single_entry_group_decided_by_keep_list {["pkg"]}
             (mkArgs false false) "pkg" "pkg-1.0-" [] (mkPlan [] [] [])
             (initial ["pkg-1.0-"])).
    apply elem_of_singleton. reflexivity.
  - apply (single_entry_group_decided_by_keep_list {["pkg"]}
             (mkArgs false true) "c.d" "c.d-1.0.0" [] (mkPlan [] [] [])
             (initial ["c.d-1.0.0"])).
    rewrite elem_of_singleton. discriminate.
Defined.

(** C8. Idempotence.  If a real run exits with status 0 (every decided
    removal succeeded, or there was none), then a second run on what is
    left, listed in any order, decides no removal: both removal lists are
    empty, every directory listed is kept, and the run exits with status 0
    without touching the listing. *)
Theorem second_run_removes_nothing
    (rmtree_fault : string -> option rm_exn) (keep_list : gset string)
    (args : Args) (w w1 w2 : World) :
  dry_run args = false ->
  main rmtree_fault keep_list args w = (Ok 0, w1) ->
  Permutation (listing w2) (listing w1) ->
  exists p2 w3,
    decide_phase keep_list args w2 = (Ok p2, w3)
    /\ to_remove p2 = []
    /\ old_versions_to_remove p2 = []
    /\ (forall d, In d (listing w2) -> In d (to_keep p2))
    /\ main rmtree_fault keep_list args w2 = (Ok 0, w3)
    /\ listing w3 = listing w2.
Proof.
  intros Hdry Hrun Hperm.
  destruct (main_clean_run _ _ _ _ _ Hdry Hrun) as (p & wd & keepf & D & Hl & Hout).
  assert (Hsettled : Forall (settled keep_list args)
                       (group_extensions_by_base_name (listing w2))).
  { apply (survivors_settled keep_list args w p wd); [exact D| |].
    - intros d Hd. apply (Permutation_in _ Hperm) in Hd. rewrite Hl in Hd.
      apply List.filter_In in Hd as [Hd Hk]. split; [exact Hd|].
      split; intros Hin.
      + rewrite Hout in Hk by now left. discriminate.
      + rewrite Hout in Hk by now right. discriminate.
    - intros b. unfold group_of.
      rewrite (filter_length_perm _ _ _ Hperm), Hl, filter_filter.
      rewrite (List.filter_ext _
                 (fun x => String.eqb (extract_base_name x) b && keepf x)
                 (fun x => andb_comm _ _)).
      rewrite <- filter_filter. apply List.filter_length_le. }
  destruct (decide_loop_settled keep_list args _ Hsettled (mkPlan [] [] []) w2)
    as (p2 & w3 & Hdec & Hl3 & Hr & Ho & _ & Hkept).
  cbn [to_remove old_versions_to_remove] in Hr, Ho.
  assert (D2 : decide_phase keep_list args w2 = (Ok p2, w3)).
  { unfold decide_phase. rewrite bind_run. exact Hdec. }
  exists p2, w3. split; [exact D2|]. split; [exact Hr|]. split; [exact Ho|].
  split; [|split; [|exact Hl3]].
  - intros d Hd.
    destruct (group_extensions_by_base_name_spec (listing w2)) as (_ & Hitems & Hkeys).
    pose proof (Hkeys d Hd) as Hk.
    apply in_map_iff in Hk as ([b ds] & Hb & Hg). cbn in Hb. subst b.
    apply (Hkept _ ds d Hg). destruct (Hitems _ _ Hg) as [-> _].
    apply List.filter_In. split; [exact Hd | apply String.eqb_refl].
  - unfold main. rewrite bind_run, D2, Hr, Ho. reflexivity.
Qed.

Lemma second_run_removes_nothing_witness :
  exists p2 w3,
    decide_phase {["a.b"]} (mkArgs false false) (initial ["a.b-1.2.0"])
    = (Ok p2, w3)
    /\ to_remove p2 = []
    /\ old_versions_to_remove p2 = [].
Proof.
  destruct (second_run_removes_nothing (fun _ => None) {["a.b"]}
              (mkArgs false false)
              (initial ["a.b-1.0.0"; "a.b-1.2.0"; "c.d-1.0.0"])
              (mkWorld ["a.b-1.2.0"] [("1.2.0", "1.0.0")]
                 ["c.d-1.0.0"; "a.b-1.0.0"]
                 [Removed "c.d-1.0.0" "not in keep list";
                  Removed "a.b-1.0.0" "old version"])
              (initial ["a.b-1.2.0"]))
    as (p2 & w3 & D & Hr & Ho & _).
  - reflexivity.
  - vm_compute. reflexivity.
  - reflexivity.
  - exists p2, w3. split; [exact D|]. split; [exact Hr | exact Ho].
Defined.

(** C9. The claim speaks of every run and of every directory decided for
    removal, and the code does not deliver it for all of them.  With the
    directories [x-1], [pkg-1.0] and [pkg-1.0-] and the keep list [pkg],
    the decision loop first marks [x-1] for removal as unwanted; on the
    next group [find_latest_version] raises [IndexError] while decoding
    [pkg-1.0-], nothing catches it, and [main] stops with the exception
    before the removal loops: [shutil.rmtree] is never called, no line is
    printed, and the decided removal of [x-1] is not attempted. *)
Theorem crashed_run_attempts_no_removal :
  let names := ["x-1"; "pkg-1.0"; "pkg-1.0-"] in
  let args := mkArgs false false in
  let run := main (fun _ => None) {["pkg"]} args (initial names) in
  group_extensions_by_base_name names
  = [("x", ["x-1"]); ("pkg", ["pkg-1.0"; "pkg-1.0-"])]
  /\ decide_loop {["pkg"]} args [("x", ["x-1"])] (mkPlan [] [] []) (initial names)
     = (Ok (mkPlan ["x-1"] [] []), initial names)
  /\ decide_loop {["pkg"]} args [("pkg", ["pkg-1.0"; "pkg-1.0-"])]
       (mkPlan ["x-1"] [] []) (initial names)
     = (Raise IndexError, initial names)
  /\ fst run = Raise IndexError
  /\ rmtree_calls (snd run) = []
  /\ printed (snd run) = []
  /\ listing (snd run) = names.
Proof. cbv zeta. repeat split; vm_compute; reflexivity. Qed.

(** C10. The version comparison is antisymmetric and reflexive. *)
Theorem compare_versions_antisymmetric_reflexive :
  (forall a b, compare_versions a b = - compare_versions b a)
  /\ (forall a, compare_versions a a = 0).
Proof. split; [exact compare_versions_antisym | exact compare_versions_refl]. Qed.

(** * Further properties of the program *)

(** ** More on [split] and [join] *)

Lemma split_app sep a b :
  Py.split sep (a +:+ String sep b) = Py.split sep a ++ Py.split sep b.
Proof.
  induction a as [|c a IH].
  { change ("" +:+ String sep b) with (String sep b).
    now rewrite split_cons, Ascii.eqb_refl. }
  change (String c a +:+ String sep b) with (String c (a +:+ String sep b)).
  rewrite !split_cons, IH.
  pose proof (split_not_nil sep a) as Hne.
  destruct (Ascii.eqb c sep); [reflexivity|].
  destruct (Py.split sep a); [contradiction | reflexivity].
Qed.

Lemma split_parts_no_sep sep s : Forall (no_sep sep) (Py.split sep s).
Proof.
  induction s as [|c s IH]; [repeat constructor|].
  rewrite split_cons. pose proof (split_not_nil sep s) as Hne.
  destruct (Py.split sep s) as [|p ps]; [contradiction|].
  apply List.Forall_cons_iff in IH as [Hp Hps].
  destruct (Ascii.eqb c sep) eqn:E.
  - constructor; [reflexivity|]. now constructor.
  - constructor; [|exact Hps]. unfold no_sep in *. cbn [hd].
    rewrite split_cons, E, Hp. reflexivity.
Qed.

Lemma split_join sep segs :
  segs <> [] -> Forall (no_sep sep) segs ->
  Py.split sep (Py.join (String sep "") segs) = segs.
Proof.
  intros Hne H. induction H as [|x segs Hx Hsegs IH]; [contradiction|].
  destruct segs as [|y segs]; [exact Hx|].
  rewrite join_cons2.
  change (x +:+ String sep "" +:+ Py.join (String sep "") (y :: segs))
    with (x +:+ String sep (Py.join (String sep "") (y :: segs))).
  rewrite split_app, Hx, IH by discriminate. reflexivity.
Qed.

Lemma up_to_digit_idem segs :
  Spec.up_to_digit (Spec.up_to_digit segs) = Spec.up_to_digit segs.
Proof.
  induction segs as [|seg segs IH]; [reflexivity|]. cbn.
  destruct (Spec.begins_with_digit seg) eqn:D; [reflexivity|].
  cbn. now rewrite D, IH.
Qed.

Lemma up_to_digit_no_sep sep segs :
  Forall (no_sep sep) segs -> Forall (no_sep sep) (Spec.up_to_digit segs).
Proof.
  induction 1 as [|seg segs Hseg _ IH]; [constructor|]. cbn.
  destruct (Spec.begins_with_digit seg); [constructor | now constructor].
Qed.

(** ** More on NameCodec *)

(** The raw name is its base name followed by the rest. *)
Lemma base_prefix raw :
  raw = Spec.base raw +:+ Py.slice_from (String.length (Spec.base raw)) raw.
Proof.
  assert (Hself : forall s, s = s +:+ Py.slice_from (String.length s) s).
  { intros s. rewrite slice_from_all. induction s as [|c s IH]; [reflexivity|].
    change (String c s = String c (s +:+ "")). now rewrite <- IH. }
  unfold Spec.base.
  destruct (Py.split "-" raw) as [|first [|second later]] eqn:E; try apply Hself.
  pose proof (join_split "-" raw) as J. rewrite E in J.
  destruct (up_to_digit_split (second :: later)) as [U | (d & rest & U & Hd)].
  - rewrite U, J. apply Hself.
  - remember (Spec.up_to_digit (second :: later)) as l1 eqn:L1.
    rewrite <- J, U.
    change (first :: (l1 ++ d :: rest)) with ((first :: l1) ++ d :: rest).
    rewrite join_app by discriminate. now rewrite slice_from_app.
Qed.

Lemma remainder_shape raw :
  (Spec.remainder raw = "" /\ raw = Spec.base raw)
  \/ (starts_with_digit (Spec.remainder raw) = true
      /\ raw = Spec.base raw +:+ "-" +:+ Spec.remainder raw).
Proof.
  pose proof (base_prefix raw) as P. unfold Spec.remainder.
  destruct (after_base_shape raw) as [T | (c & s & Hc & T)]; cbv zeta in T;
    rewrite T in P |- *.
  - left. split; [reflexivity|]. rewrite P at 1.
    generalize (Spec.base raw). intros b.
    induction b as [|x b IH]; [reflexivity|].
    change (String x (b +:+ "") = String x b). now rewrite IH.
  - right. split; [exact Hc | exact P].
Qed.

Lemma append_empty_r s : s +:+ "" = s.
Proof.
  induction s as [|c s IH]; [reflexivity|].
  change (String c (s +:+ "") = String c s). now rewrite IH.
Qed.

Lemma join_starts_with_digit sep x l :
  starts_with_digit x = true ->
  starts_with_digit (Py.join sep (x :: l)) = true.
Proof.
  destruct x as [|c x]; [discriminate|]. intros H. now destruct l.
Qed.

Lemma starts_with_digit_nonempty s : starts_with_digit s = true -> s <> "".
Proof. now destruct s. Qed.

(** The three shapes of a decoded raw name. *)
Lemma decode_cases raw e :
  decode raw = Ok e ->
  rawName e = raw /\ baseName e = extract_base_name raw
  /\ ((version e = "" /\ arch e = "" /\ raw = baseName e)
      \/ (starts_with_digit (version e) = true /\ arch e = ""
          /\ raw = baseName e +:+ "-" +:+ version e)
      \/ (starts_with_digit (version e) = true /\ arch e <> ""
          /\ starts_with_digit (arch e) = false /\ no_sep "-" (arch e)
          /\ raw = baseName e +:+ "-" +:+ version e +:+ "-" +:+ arch e)).
Proof.
  intros D. pose proof D as D'. unfold decode in D'.
  destruct (extract_version_info raw) as [[v a]|]; [|discriminate].
  injection D' as <-. cbn [rawName baseName version arch].
  split; [reflexivity|]. split; [reflexivity|].
  rewrite decode_eq in D. cbv zeta in D.
  destruct (_ && _) eqn:Hraise in D; [discriminate|].
  injection D as D. rewrite extract_base_name_spec.
  pose proof (f_equal version D) as Dv. pose proof (f_equal arch D) as Da.
  cbn [version arch] in Dv, Da. clear D. unfold Spec.decode in Dv, Da.
  destruct (remainder_shape raw) as [[R Hraw]|[R Hraw]].
  - left. rewrite R in Dv, Da.
    destruct (Py.split "-" raw) as [|first [|second later]];
      cbn in Dv, Da; subst v a; auto.
  - assert (exists first second later, Py.split "-" raw = first :: second :: later)
      as (first & second & later & E).
    { destruct (Py.split "-" raw) as [|first [|second later]] eqn:E; eauto.
      - now destruct (split_not_nil "-" raw).
      - unfold Spec.remainder, Spec.base in R. rewrite E, slice_from_all in R.
        discriminate. }
    rewrite E in Dv, Da.
    pose proof (join_split "-" (Spec.remainder raw)) as J.
    pose proof (split_parts_no_sep "-" (Spec.remainder raw)) as Hns.
    pose proof (head_split_digit (Spec.remainder raw)) as Hhd. rewrite R in Hhd.
    destruct (Py.split "-" (Spec.remainder raw)) as [|x segs] eqn:S;
      [now destruct (split_not_nil "-" (Spec.remainder raw))|].
    cbn [hd] in Hhd.
    destruct ((1 <? length (x :: segs))%nat
              && negb (Spec.begins_with_digit (List.last (x :: segs) "")))
      eqn:Harch; cbn [version arch] in Dv, Da; subst v a.
    + right; right. apply andb_true_iff in Harch as [Hlen Hlast].
      rewrite Hlen in Hraise. cbn [andb] in Hraise.
      apply negb_true_iff in Hlast. rewrite <- starts_with_digit_spec in Hlast.
      assert (Hsegs : segs <> []) by (destruct segs; discriminate).
      pose proof (app_removelast_last "" (l := x :: segs) ltac:(discriminate))
        as Hsplit.
      assert (Hrl : List.removelast (x :: segs) <> []).
      { destruct segs; [contradiction | discriminate]. }
      split.
      { destruct segs as [|y segs]; [contradiction|].
        change (List.removelast (x :: y :: segs))
          with (x :: List.removelast (y :: segs)).
        now apply join_starts_with_digit. }
      split; [now destruct (List.last (x :: segs) "")|].
      split; [exact Hlast|]. split.
      { rewrite List.Forall_forall in Hns. apply Hns.
        rewrite Hsplit at 2. apply in_app_iff. right. now left. }
      rewrite Hraw at 1. rewrite <- J at 1. rewrite Hsplit at 1.
      rewrite join_app by (assumption || discriminate). reflexivity.
    + right; left. split; [exact R|]. split; [reflexivity | exact Hraw].
Qed.

(** X1. Decoding loses nothing. *)
Theorem decode_round_trip (raw : string) (e : Entry) :
  decode raw = Ok e -> entry_name e = raw.
Proof.
  intros D. destruct (decode_cases raw e D) as (_ & _ & H). unfold entry_name.
  destruct H as [(-> & -> & Hraw)|[(Hv & -> & Hraw)|(Hv & Ha & _ & _ & Hraw)]].
  - cbn [Py.is_empty]. now rewrite append_empty_r.
  - destruct (version e); [discriminate|]. cbn [Py.is_empty].
    now rewrite append_empty_r.
  - destruct (version e); [discriminate|]. destruct (arch e); [contradiction|].
    cbn [Py.is_empty]. symmetry. exact Hraw.
Qed.

Lemma decode_round_trip_witness :
  entry_name (mkEntry "ms-python.python-2021.5.842923320-x64" "ms-python.python"
                "2021.5.842923320" "x64")
  = "ms-python.python-2021.5.842923320-x64".
Proof. apply decode_round_trip. reflexivity. Defined.

(** X2. What the decoded fields look like. *)
Theorem decoded_fields_shape (raw : string) (e : Entry) :
  decode raw = Ok e ->
  (version e = "" \/ starts_with_digit (version e) = true)
  /\ starts_with_digit (arch e) = false
  /\ no_sep "-" (arch e)
  /\ (arch e <> "" -> version e <> "")
  /\ (version e = "" -> baseName e = raw).
Proof.
  intros D. destruct (decode_cases raw e D) as (_ & _ & H).
  destruct H as [(Hv & Ha & Hraw)|[(Hv & Ha & Hraw)|(Hv & Ha & Hd & Hns & Hraw)]].
  - rewrite Hv, Ha. split; [now left|]. split; [reflexivity|].
    split; [reflexivity|]. split; [contradiction | now intros _].
  - rewrite Ha. split; [now right|]. split; [reflexivity|].
    split; [reflexivity|]. split; [contradiction|].
    intros Hv'. rewrite Hv' in Hv. discriminate.
  - split; [now right|]. split; [exact Hd|]. split; [exact Hns|].
    split; [intros _; now apply starts_with_digit_nonempty|].
    intros Hv'. rewrite Hv' in Hv. discriminate.
Qed.

Lemma decoded_fields_shape_witness :
  starts_with_digit "x64" = false /\ no_sep "-" "x64".
Proof.
  destruct (decoded_fields_shape "pkg-1.0.0-x64" (mkEntry "pkg-1.0.0-x64" "pkg" "1.0.0" "x64"))
    as (_ & Hd & Hns & _); [reflexivity|]. now split.
Defined.

Lemma base_idempotent raw : Spec.base (Spec.base raw) = Spec.base raw.
Proof.
  unfold Spec.base at 2 3.
  destruct (Py.split "-" raw) as [|first [|second later]] eqn:E.
  - unfold Spec.base. now rewrite E.
  - unfold Spec.base. now rewrite E.
  - pose proof (split_parts_no_sep "-" raw) as Hns. rewrite E in Hns.
    apply List.Forall_cons_iff in Hns as [Hf Hl].
    pose proof (up_to_digit_no_sep "-" _ Hl) as Hu.
    unfold Spec.base.
    rewrite (split_join "-" (first :: Spec.up_to_digit (second :: later)))
      by (discriminate || now constructor).
    destruct (Spec.up_to_digit (second :: later)) as [|u us] eqn:U;
      [reflexivity|].
    rewrite <- U, up_to_digit_idem. reflexivity.
Qed.

(** X3. A base name is a name without version. *)
Theorem base_name_is_fixed_point (raw : string) :
  let b := extract_base_name raw in
  extract_base_name b = b /\ decode b = Ok (mkEntry b b "" "").
Proof.
  cbv zeta. rewrite !extract_base_name_spec.
  pose proof (base_idempotent raw) as Hb. split; [exact Hb|].
  set (b := Spec.base raw) in *.
  assert (R : Spec.remainder b = "").
  { unfold Spec.remainder. now rewrite Hb, slice_from_all. }
  rewrite decode_eq, R. cbn. unfold Spec.decode. rewrite R.
  destruct (Py.split "-" b) as [|first [|second later]]; cbn; now rewrite ?Hb.
Qed.

(** ** More on VersionComparator *)

Lemma first_difference_app l1 l2 :
  Spec.first_difference (l1 ++ l2)
  = if Spec.first_difference l1 =? 0 then Spec.first_difference l2
    else Spec.first_difference l1.
Proof.
  induction l1 as [|r l1 IH]; [reflexivity|]. cbn [app Spec.first_difference].
  destruct (Z.eqb_spec r 0) as [_|Hr]; [exact IH|].
  now destruct (Z.eqb_spec r 0).
Qed.

(** Positions past both versions do not matter. *)
Lemma first_difference_extend (f : nat -> Z) n m :
  (n <= m)%nat -> (forall i, (n <= i)%nat -> f i = 0) ->
  Spec.first_difference (map f (seq 0 m)) = Spec.first_difference (map f (seq 0 n)).
Proof.
  intros Hnm Hz. replace m with (n + (m - n))%nat by lia.
  rewrite seq_app, map_app, first_difference_app.
  assert (Spec.first_difference (map f (seq (0 + n) (m - n))) = 0) as ->.
  { generalize (m - n)%nat as k. cbn [Nat.add]. intros k.
    assert (forall s, (n <= s)%nat -> Spec.first_difference (map f (seq s k)) = 0)
      as H; [|now apply H].
    induction k as [|k IH]; intros s Hs; [reflexivity|].
    cbn [seq map Spec.first_difference]. rewrite (Hz s Hs). cbn.
    apply IH. lia. }
  now destruct (_ =? 0) eqn:E; [apply Z.eqb_eq in E|].
Qed.

Lemma segment_past segs i : (length segs <= i)%nat -> Spec.segment segs i = "0".
Proof. intros H. unfold Spec.segment. now rewrite lookup_ge_None_2. Qed.

Lemma segment_app_zero segs i : Spec.segment (segs ++ ["0"]) i = Spec.segment segs i.
Proof.
  unfold Spec.segment. destruct (Nat.lt_ge_cases i (length segs)) as [H|H].
  - now rewrite lookup_app_l.
  - rewrite (lookup_ge_None_2 segs i H), lookup_app_r by exact H.
    now destruct (i - length segs)%nat as [|[|k]].
Qed.

Lemma compare_range a b n :
  a <> "" -> b <> "" ->
  (Nat.max (length (Py.split "." a)) (length (Py.split "." b)) <= n)%nat ->
  compare_versions a b
  = Spec.first_difference
      (map (fun i => Spec.compare_position (Spec.segment (Py.split "." a) i)
                       (Spec.segment (Py.split "." b) i)) (seq 0 n)).
Proof.
  intros Ha Hb Hn. rewrite compare_versions_spec.
  destruct a; [contradiction|]. destruct b; [contradiction|].
  unfold Spec.compare. symmetry. apply first_difference_extend; [exact Hn|].
  intros i Hi. rewrite !segment_past by lia. reflexivity.
Qed.

(** X4. A trailing ".0" does not change how a version compares. *)
Theorem trailing_zero_segment_ignored (a b : string) :
  a <> "" ->
  compare_versions (a +:+ ".0") b = compare_versions a b
  /\ compare_versions b (a +:+ ".0") = compare_versions b a.
Proof.
  intros Ha.
  assert (H : forall c, compare_versions (a +:+ ".0") c = compare_versions a c).
  { intros c. assert (Ha0 : a +:+ ".0" <> "") by (now destruct a).
    destruct c as [|x c].
    - destruct a; [contradiction | reflexivity].
    - set (n := S (Nat.max (length (Py.split "." a))
                     (length (Py.split "." (String x c))))).
      assert (Hsplit : Py.split "." (a +:+ ".0") = Py.split "." a ++ ["0"]).
      { change (a +:+ ".0") with (a +:+ String "." "0"). now rewrite split_app. }
      rewrite (compare_range (a +:+ ".0") (String x c) n), (compare_range a (String x c) n);
        try (assumption || discriminate).
      + rewrite Hsplit. f_equal. apply map_ext. intros i.
        now rewrite segment_app_zero.
      + unfold n. lia.
      + rewrite Hsplit, length_app. cbn [length]. unfold n. lia. }
  split; [apply H|].
  now rewrite compare_versions_antisym, H, <- compare_versions_antisym.
Qed.

Lemma trailing_zero_segment_ignored_witness :
  compare_versions "1.2.0" "1.10" = compare_versions "1.2" "1.10".
Proof. apply (trailing_zero_segment_ignored "1.2" "1.10"). discriminate. Defined.

(** X5. The comparison is no order.  Numeric and lexical comparisons mix
    ("2" < "10" as numbers, "10" < "1a" < "2" as text), so it has cycles,
    and the directory [find_latest_version] returns depends on the order
    in which the group is listed. *)
Theorem compare_versions_not_transitive :
  ~ (forall a b c, compare_versions a b = -1 -> compare_versions b c = -1 ->
                   compare_versions a c = -1)
  /\ ~ (forall ds ds', Permutation ds ds' -> latest_of ds = latest_of ds').
Proof.
  split.
  - intros H. specialize (H "2" "10" "1a" eq_refl eq_refl). discriminate H.
  - intros H.
    specialize (H ["p-2"; "p-10"; "p-1a"] ["p-10"; "p-1a"; "p-2"]).
    assert (P : Permutation ["p-2"; "p-10"; "p-1a"] ["p-10"; "p-1a"; "p-2"]).
    { change ["p-10"; "p-1a"; "p-2"] with (["p-10"; "p-1a"] ++ ["p-2"]).
      apply Permutation_cons_append. }
    specialize (H P). vm_compute in H. discriminate H.
Qed.

Lemma numeric_segment segs i :
  Forall (fun seg => is_Some (Py.int seg)) segs ->
  Py.int (Spec.segment segs i) = Some (position_value segs i).
Proof.
  intros H. unfold position_value, Spec.segment.
  destruct (segs !! i) as [seg|] eqn:L; [|reflexivity].
  rewrite List.Forall_forall in H.
  destruct (H seg) as [z Hz]; [|cbn; now rewrite Hz].
  apply list_elem_of_In. eapply list_elem_of_lookup_2. exact L.
Qed.

Lemma position_value_past segs i :
  (length segs <= i)%nat -> position_value segs i = 0.
Proof. intros H. unfold position_value. now rewrite segment_past. Qed.

Lemma numeric_compare a b n :
  a <> "" -> b <> "" -> numeric a -> numeric b ->
  (Nat.max (length (Py.split "." a)) (length (Py.split "." b)) <= n)%nat ->
  compare_versions a b
  = Spec.first_difference
      (map (fun i => Spec.sign (position_value (Py.split "." a) i
                                ?= position_value (Py.split "." b) i))
         (seq 0 n)).
Proof.
  intros Ha Hb Na Nb Hn. rewrite (compare_range a b n) by assumption.
  f_equal. apply map_ext. intros i. unfold Spec.compare_position.
  now rewrite (numeric_segment _ i Na), (numeric_segment _ i Nb).
Qed.

(** Comparing sequences of integers position by position is transitive. *)
Lemma lexicographic_trans (fa fb fc : nat -> Z) l :
  Spec.first_difference (map (fun i => Spec.sign (fa i ?= fb i)) l) <= 0 ->
  Spec.first_difference (map (fun i => Spec.sign (fb i ?= fc i)) l) <= 0 ->
  Spec.first_difference (map (fun i => Spec.sign (fa i ?= fc i)) l) <= 0.
Proof.
  induction l as [|i l IH]; cbn [map Spec.first_difference]; [lia|].
  destruct (Z.compare_spec (fa i) (fb i)) as [Hab|Hab|Hab];
    destruct (Z.compare_spec (fb i) (fc i)) as [Hbc|Hbc|Hbc];
    destruct (Z.compare_spec (fa i) (fc i)) as [Hac|Hac|Hac];
    cbn; try lia; exact IH.
Qed.

Lemma numeric_not_empty v : numeric v -> v <> "".
Proof.
  intros H ->. unfold numeric in H. cbn in H.
  apply List.Forall_cons_iff in H as [[z Hz] _]. discriminate Hz.
Qed.

Lemma compare_plain_trans (a b c : string) :
  plain_version a -> plain_version b -> plain_version c ->
  compare_versions a b <= 0 -> compare_versions b c <= 0 ->
  compare_versions a c <= 0.
Proof.
  intros [->|Na] Hb Hc Hab Hbc.
  - destruct c; cbn; lia.
  - pose proof (numeric_not_empty a Na) as Ha.
    destruct Hb as [->|Nb]; [destruct a; [contradiction | cbn in Hab; lia]|].
    pose proof (numeric_not_empty b Nb) as Hb.
    destruct Hc as [->|Nc]; [destruct b; [contradiction | cbn in Hbc; lia]|].
    pose proof (numeric_not_empty c Nc) as Hc.
    set (n := Nat.max (length (Py.split "." a))
                (Nat.max (length (Py.split "." b)) (length (Py.split "." c)))).
    rewrite (numeric_compare a b n) in Hab by (assumption || (unfold n; lia)).
    rewrite (numeric_compare b c n) in Hbc by (assumption || (unfold n; lia)).
    rewrite (numeric_compare a c n) by (assumption || (unfold n; lia)).
    eapply lexicographic_trans; eassumption.
Qed.

(** X6. On versions without text (empty, or dotted integers) the comparison
    is transitive. *)
Theorem compare_versions_transitive_on_numbers (a b c : string) :
  plain_version a -> plain_version b -> plain_version c ->
  compare_versions a b <= 0 -> compare_versions b c <= 0 ->
  compare_versions a c <= 0.
Proof.
  intros Ha Hb Hc Hab Hbc.
  exact (compare_plain_trans a b c Ha Hb Hc Hab Hbc).
Qed.

Lemma compare_versions_transitive_on_numbers_witness :
  compare_versions "1.2" "1.10.1" <= 0.
Proof.
  apply (compare_versions_transitive_on_numbers "1.2" "1.9" "1.10.1").
  - right. repeat constructor; vm_compute; eauto.
  - right. repeat constructor; vm_compute; eauto.
  - right. repeat constructor; vm_compute; eauto.
  - vm_compute. discriminate.
  - vm_compute. discriminate.
Defined.

(** ** More on SelectionPolicy *)

Lemma latest_loop_in dirs : forall cur lv la w l w',
  latest_loop dirs cur lv la w = (Ok l, w') -> l = cur \/ In l dirs.
Proof.
  induction dirs as [|d dirs IH]; intros cur lv la w l w'.
  - intros [= <- _]. now left.
  - cbn [latest_loop]. rewrite bind_run. unfold lift at 1.
    destruct (extract_version_info d) as [[v a]|]; [|discriminate].
    rewrite bind_run. unfold call_compare_versions at 1.
    set (w1 := mkWorld _ _ _ _). intros H.
    assert (exists cur' lv' la', (cur' = cur \/ cur' = d)
              /\ latest_loop dirs cur' lv' la' w1 = (Ok l, w'))
      as (cur' & lv' & la' & Hc & H').
    { destruct (_ >? 0); [eauto 7|]. destruct (_ =? 0); [|eauto 7].
      destruct (_ <? _)%nat; eauto 7. }
    destruct (IH _ _ _ _ _ _ H') as [->|Hin]; [|right; now right].
    destruct Hc as [->| ->]; [now left | right; now left].
Qed.

Lemma latest_loop_indep dirs : forall cur lv la w w0,
  fst (latest_loop dirs cur lv la w) = fst (latest_loop dirs cur lv la w0).
Proof.
  induction dirs as [|d dirs IH]; intros cur lv la w w0; [reflexivity|].
  cbn [latest_loop]. rewrite !bind_run. unfold lift.
  destruct (extract_version_info d) as [[v a]|]; [|reflexivity].
  rewrite !bind_run. unfold call_compare_versions.
  destruct (_ >? 0); [apply IH|]. destruct (_ =? 0); [|apply IH].
  destruct (_ <? _)%nat; apply IH.
Qed.

Lemma find_latest_version_eq ds w :
  exists calls, find_latest_version ds w = (latest_of ds, add_compared w calls).
Proof.
  assert (Hfst : fst (find_latest_version ds w) = latest_of ds).
  { unfold latest_of. destruct ds as [|first [|second rest]]; try reflexivity.
    unfold find_latest_version. rewrite !bind_run. unfold lift.
    destruct (extract_version_info first) as [[v a]|]; [|reflexivity].
    apply latest_loop_indep. }
  destruct (find_latest_version ds w) as [r w'] eqn:F.
  destruct (find_latest_version_run _ _ _ _ F) as [(calls & ->) _].
  exists calls. cbn in Hfst. now rewrite Hfst.
Qed.

Lemma latest_of_in ds l : latest_of ds = Ok l -> In l ds.
Proof.
  unfold latest_of. destruct ds as [|first [|second rest]].
  - discriminate.
  - intros [= <-]. now left.
  - unfold find_latest_version. rewrite bind_run. unfold lift at 1.
    destruct (extract_version_info first) as [[v a]|]; [|discriminate].
    destruct (latest_loop _ _ _ _ _) as [r w'] eqn:L. cbn. intros ->.
    destruct (latest_loop_in _ _ _ _ _ _ _ L) as [->|Hin]; [now left | now right].
Qed.

Lemma decodes_decode d : decodes d -> exists e, decode d = Ok e.
Proof. intros [[v a] H]. unfold decode. rewrite H. eauto. Qed.

Lemma decodes_all ds :
  (forall d, In d ds -> decodes d) ->
  exists es, Forall2 (fun d e => decode d = Ok e) ds es.
Proof.
  induction ds as [|d ds IH]; intros H; [exists []; constructor|].
  destruct (decodes_decode d (H d (or_introl eq_refl))) as [e He].
  destruct IH as [es Hes]; [intros x Hx; apply H; now right|].
  exists (e :: es). now constructor.
Qed.

(** X7. When [find_latest_version] returns, and what. *)
Theorem find_latest_version_returns (ds : list string) (w : World) :
  ((exists l w', find_latest_version ds w = (Ok l, w'))
   <-> ds <> [] /\ ((2 <= length ds)%nat -> forall d, In d ds -> decodes d))
  /\ (forall l w', find_latest_version ds w = (Ok l, w') ->
        In l ds /\ listing w' = listing w /\ rmtree_calls w' = rmtree_calls w
        /\ printed w' = printed w
        /\ exists calls, compared w' = compared w ++ calls
                         /\ length calls = (length ds - 1)%nat).
Proof.
  split; [split|].
  - intros (l & w' & F). split; [intros ->; discriminate F|].
    destruct (find_latest_version_run _ _ _ _ F) as [_ H]. now apply (H l).
  - intros [Hne Hdec]. destruct ds as [|first [|second rest]]; [contradiction| |].
    + eexists _, _. reflexivity.
    + specialize (Hdec ltac:(cbn; lia)).
      destruct (decodes_decode first (Hdec _ (or_introl eq_refl))) as [e He].
      destruct (decodes_all (second :: rest)) as [es Hes];
        [intros d Hd; apply Hdec; now right|].
      destruct (find_latest_version_spec _ _ _ _ w He Hes) as (calls & _ & ->).
      eauto.
  - intros l w' F. split.
    { destruct (find_latest_version_eq ds w) as (calls & E).
      rewrite F in E. injection E as El _. now apply latest_of_in. }
    destruct ds as [|first [|second rest]]; [discriminate F| |].
    + injection F as _ <-. repeat split. exists []. now rewrite app_nil_r.
    + destruct (find_latest_version_run _ _ _ _ F) as [_ H].
      specialize (H l eq_refl ltac:(cbn; lia)).
      destruct (decodes_decode first (H _ (or_introl eq_refl))) as [e He].
      destruct (decodes_all (second :: rest)) as [es Hes];
        [intros d Hd; apply H; now right|].
      destruct (find_latest_version_spec _ _ _ _ w He Hes) as (calls & Hlen & E).
      rewrite F in E. injection E as _ ->. repeat split.
      exists calls. split; [reflexivity|]. rewrite Hlen. cbn. lia.
Qed.

Lemma find_latest_version_returns_witness :
  exists l w', find_latest_version ["a.b-1.0.0"; "a.b-1.2.0"] (initial []) = (Ok l, w').
Proof.
  apply (find_latest_version_returns ["a.b-1.0.0"; "a.b-1.2.0"] (initial [])).
  split; [discriminate|]. intros _ d [<-|[<-|[]]]; eexists; reflexivity.
Defined.

Lemma latest_fold_max es : forall best,
  Forall (fun x => plain_version (version x)) (best :: es) ->
  In (Spec.latest best es) (best :: es)
  /\ compare_versions (version best) (version (Spec.latest best es)) <= 0
  /\ forall x, In x es ->
       compare_versions (version x) (version (Spec.latest best es)) <= 0.
Proof.
  induction es as [|c es IH]; intros best Hp.
  - cbn. rewrite compare_versions_refl. repeat split; [now left | lia | contradiction].
  - apply List.Forall_cons_iff in Hp as [Hbest Hp].
    apply List.Forall_cons_iff in Hp as [Hc Hes].
    change (Spec.latest best (c :: es))
      with (Spec.latest (if Spec.replaces c best then c else best) es).
    set (b' := if Spec.replaces c best then c else best).
    assert (Hb' : plain_version (version b')) by (unfold b'; now destruct (Spec.replaces c best)).
    destruct (IH b' ltac:(now constructor)) as (Hin & Hle & Hall).
    assert (Hsteps : compare_versions (version best) (version b') <= 0
                     /\ compare_versions (version c) (version b') <= 0).
    { unfold b'. rewrite replaces_eq. cbv zeta.
      pose proof (compare_versions_antisym (version best) (version c)) as Hanti.
      pose proof (compare_versions_refl (version best)) as Hrb.
      pose proof (compare_versions_refl (version c)) as Hrc.
      destruct (Z.gtb_spec (compare_versions (version c) (version best)) 0)
        as [Hgt|Hgt]; [lia|].
      destruct (Z.eqb_spec (compare_versions (version c) (version best)) 0)
        as [Hz|Hz]; [destruct (_ <? _)%nat; lia | lia]. }
    destruct Hsteps as [Hb Hcb].
    assert (HL : plain_version (version (Spec.latest b' es))).
    { revert Hin. generalize (Spec.latest b' es). intros L [<-|Hin]; [exact Hb'|].
      rewrite List.Forall_forall in Hes. now apply Hes. }
    split; [|split].
    + destruct Hin as [Hin|Hin]; [|right; now right].
      rewrite <- Hin. unfold b'. destruct (Spec.replaces c best); [right|]; now left.
    + apply (compare_plain_trans _ (version b') _); assumption.
    + intros x [<-|Hx]; [|now apply Hall].
      apply (compare_plain_trans _ (version b') _); assumption.
Qed.

Lemma decoded_entries ds (P : Entry -> Prop) :
  (forall d, In d ds -> exists e, decode d = Ok e /\ P e) ->
  exists es, Forall2 (fun d e => decode d = Ok e) ds es /\ Forall P es.
Proof.
  induction ds as [|d ds IH]; intros H; [exists []; split; constructor|].
  destruct (H d (or_introl eq_refl)) as (e & He & HP).
  destruct IH as (es & Hes & HPs); [intros x Hx; apply H; now right|].
  exists (e :: es). split; now constructor.
Qed.

Lemma decoded_in_l ds es d :
  Forall2 (fun d e => decode d = Ok e) ds es -> In d ds ->
  exists e, In e es /\ decode d = Ok e.
Proof.
  induction 1 as [|d0 e0 ds es H0 _ IH]; [contradiction|].
  intros [<-|Hin]; [exists e0; split; [now left | exact H0]|].
  destruct (IH Hin) as (e & He & Hd). exists e. split; [now right | exact Hd].
Qed.

Lemma decoded_in_r ds es e :
  Forall2 (fun d e => decode d = Ok e) ds es -> In e es ->
  decode (rawName e) = Ok e.
Proof.
  induction 1 as [|d0 e0 ds es H0 _ IH]; [contradiction|].
  intros [<-|Hin]; [|now apply IH].
  destruct (decode_ok_inv _ _ H0) as [_ ->]. exact H0.
Qed.

(** X8. On groups whose versions have no text, the directory that
    [find_latest_version] returns has a version that none of the group
    exceeds. *)
Theorem latest_is_maximal_on_numbers (ds : list string) (w w' : World)
    (l : string) :
  (forall d, In d ds -> exists e, decode d = Ok e /\ plain_version (version e)) ->
  find_latest_version ds w = (Ok l, w') ->
  exists el,
    decode l = Ok el
    /\ forall d e, In d ds -> decode d = Ok e ->
                   compare_versions (version e) (version el) <= 0.
Proof.
  intros Hds F. destruct ds as [|first rest]; [discriminate F|].
  destruct (decoded_entries (first :: rest) _ Hds) as (es0 & Hes0 & Hp).
  destruct es0 as [|e es]; [inversion Hes0|].
  pose proof Hes0 as Hall.
  apply List.Forall2_cons_iff in Hes0 as [He Hes].
  destruct (find_latest_version_spec _ _ _ _ w He Hes) as (calls & _ & E).
  rewrite F in E. injection E as -> _.
  destruct (latest_fold_max es e Hp) as (Hin & Hbest & Hothers).
  exists (Spec.latest e es). split; [now apply (decoded_in_r _ _ _ Hall)|].
  intros d e' Hd He'. destruct (decoded_in_l _ _ _ Hall Hd) as (x & Hx & Hdx).
  rewrite He' in Hdx. injection Hdx as ->.
  destruct Hx as [<-|Hx]; [exact Hbest | now apply Hothers].
Qed.

Lemma latest_is_maximal_on_numbers_witness :
  exists el,
    decode "a.b-1.10.0" = Ok el
    /\ forall d e, In d ["a.b-1.10.0"; "a.b-1.9.0"] -> decode d = Ok e ->
                   compare_versions (version e) (version el) <= 0.
Proof.
  apply (latest_is_maximal_on_numbers ["a.b-1.10.0"; "a.b-1.9.0"] (initial [])
           (add_compared (initial []) [("1.9.0", "1.10.0")])).
  - intros d [<-|[<-|[]]]; eexists; (split; [reflexivity|]);
      right; repeat constructor; vm_compute; eauto.
  - reflexivity.
Defined.

(** ** More on the Grouper *)

Lemma dict_append_concat g k v :
  Permutation (concat (map snd (dict_append g k v))) (concat (map snd g) ++ [v]).
Proof.
  induction g as [|[k' vs] g IH]; [reflexivity|]. cbn [dict_append].
  destruct (String.eqb k' k); cbn [map snd concat].
  - rewrite <- !app_assoc. apply Permutation_app_head.
    apply Permutation_app_comm.
  - rewrite IH. now rewrite app_assoc.
Qed.

Lemma group_fold_concat dirs : forall g,
  Permutation
    (concat (map snd
       (fold_left (fun grouped ext_dir =>
                     dict_append grouped (extract_base_name ext_dir) ext_dir)
          dirs g)))
    (concat (map snd g) ++ dirs).
Proof.
  induction dirs as [|d dirs IH]; intros g; cbn [fold_left].
  - now rewrite app_nil_r.
  - rewrite IH, dict_append_concat, <- app_assoc. reflexivity.
Qed.

(** X9. The groups partition the listing by base name. *)
Theorem grouper_partitions (dirs : list string) :
  let groups := group_extensions_by_base_name dirs in
  List.NoDup (map fst groups)
  /\ (forall b ds, In (b, ds) groups -> ds <> [] /\ ds = group_of b dirs)
  /\ (forall d, In d dirs ->
        exists ds, In (extract_base_name d, ds) groups /\ In d ds)
  /\ Permutation (concat (map snd groups)) dirs.
Proof.
  cbv zeta.
  destruct (group_extensions_by_base_name_spec dirs) as (Hnd & Hitems & Hkeys).
  split; [exact Hnd|]. split; [|split].
  - intros b ds Hin. destruct (Hitems b ds Hin). now split.
  - intros d Hd. pose proof (Hkeys d Hd) as Hk.
    apply in_map_iff in Hk as ([b ds] & Hb & Hin). cbn in Hb. subst b.
    exists ds. split; [exact Hin|]. destruct (Hitems _ _ Hin) as [-> _].
    apply List.filter_In. split; [exact Hd | apply String.eqb_refl].
  - apply (group_fold_concat dirs []).
Qed.

(** ** More on the decision loop *)

Section DecideMore.

Variable keep_list : gset string.
Variable args : Args.

Lemma decide_loop_world gs : forall p w r w',
  decide_loop keep_list args gs p w = (r, w') ->
  exists calls, w' = add_compared w calls.
Proof.
  induction gs as [|[b ds] gs IH]; intros p w r w'.
  - intros [= _ <-]. exists []. now rewrite add_compared_nil.
  - cbn [decide_loop]. destruct (bool_decide (b ∈ keep_list)); [|apply IH].
    destruct (keep_all_versions args); [apply IH|].
    rewrite bind_run. destruct (find_latest_version_eq ds w) as (calls & ->).
    destruct (latest_of ds) as [l|e].
    + intros H. destruct (IH _ _ _ _ H) as (calls' & ->).
      exists (calls ++ calls'). now rewrite add_compared_app.
    + intros [= _ <-]. now exists calls.
Qed.

(** The three lists after the loop, read off the groups. *)
Lemma decide_loop_closed gs : forall p w p' w',
  decide_loop keep_list args gs p w = (Ok p', w') ->
  to_remove p'
  = to_remove p
    ++ flat_map snd (List.filter (fun g => negb (wanted keep_list g)) gs)
  /\ to_keep p'
     = to_keep p
       ++ flat_map (kept_of (keep_all_versions args))
            (List.filter (wanted keep_list) gs)
  /\ old_versions_to_remove p'
     = old_versions_to_remove p
       ++ flat_map (old_of (keep_all_versions args))
            (List.filter (wanted keep_list) gs)
  /\ (keep_all_versions args = false ->
      forall g, In g gs -> wanted keep_list g = true ->
                exists l, latest_of (snd g) = Ok l).
Proof.
  induction gs as [|[b ds] gs IH]; intros p w p' w'.
  - intros [= <- _]. cbn. rewrite !app_nil_r.
    split; [reflexivity|]. split; [reflexivity|]. split; [reflexivity|].
    intros _ g [].
  - cbn [decide_loop List.filter].
    change (wanted keep_list (b, ds)) with (bool_decide (b ∈ keep_list)).
    destruct (bool_decide (b ∈ keep_list)) eqn:Hb; cbn [negb flat_map].
    + destruct (keep_all_versions args) eqn:Hall.
      * intros H. destruct (IH _ _ _ _ H) as (Hr & Hk & Ho & _).
        cbn [to_remove to_keep old_versions_to_remove] in Hr, Hk, Ho.
        change (kept_of true (b, ds)) with ds.
        change (old_of true (b, ds)) with (@nil string).
        rewrite Hr, Hk, Ho, <- app_assoc.
        split; [reflexivity|]. split; [reflexivity|]. split; [reflexivity|].
        discriminate.
      * rewrite bind_run. destruct (find_latest_version_eq ds w) as (calls & ->).
        destruct (latest_of ds) as [l|e] eqn:L; [|discriminate].
        intros H. destruct (IH _ _ _ _ H) as (Hr & Hk & Ho & Hl).
        cbn [to_remove to_keep old_versions_to_remove] in Hr, Hk, Ho.
        assert (kept_of false (b, ds) = [l]) as ->
          by (unfold kept_of; cbn [snd]; now rewrite L).
        assert (old_of false (b, ds) = others l ds) as ->
          by (unfold old_of; cbn [snd]; now rewrite L).
        rewrite Hr, Hk, Ho, <- !app_assoc.
        split; [reflexivity|]. split; [reflexivity|]. split; [reflexivity|].
        intros _ g [<-|Hg] Hw; [exists l; exact L | now apply Hl].
    + intros H. destruct (IH _ _ _ _ H) as (Hr & Hk & Ho & Hl).
      cbn [to_remove to_keep old_versions_to_remove] in Hr, Hk, Ho.
      rewrite Hr, Hk, Ho, <- app_assoc.
      split; [reflexivity|]. split; [reflexivity|]. split; [reflexivity|].
      intros Hall g [<-|Hg] Hw; [|now apply Hl].
      unfold wanted in Hw. cbn in Hw. congruence.
Qed.

(** The loop completes when every wanted group has a latest version, or
    all versions are kept. *)
Lemma decide_loop_completes gs :
  (keep_all_versions args = true
   \/ forall g, In g gs -> wanted keep_list g = true ->
                exists l, latest_of (snd g) = Ok l) ->
  forall p w, exists p' w', decide_loop keep_list args gs p w = (Ok p', w').
Proof.
  intros H. induction gs as [|[b ds] gs IH]; intros p w; [eexists _, _; reflexivity|].
  assert (IH' : forall p w, exists p' w',
             decide_loop keep_list args gs p w = (Ok p', w')).
  { apply IH. destruct H as [?|H]; [now left | right].
    intros g Hg. apply H. now right. }
  cbn [decide_loop]. destruct (bool_decide (b ∈ keep_list)) eqn:Hb; [|apply IH'].
  destruct (keep_all_versions args) eqn:Hall; [apply IH'|].
  destruct H as [?|H]; [discriminate|].
  destruct (H (b, ds) (or_introl eq_refl) Hb) as [l Hl]. cbn [snd] in Hl.
  rewrite bind_run. destruct (find_latest_version_eq ds w) as (calls & ->).
  rewrite Hl. apply IH'.
Qed.

End DecideMore.

Lemma filter_perm {A} (f : A -> bool) l l' :
  Permutation l l' -> Permutation (List.filter f l) (List.filter f l').
Proof.
  induction 1 as [|x l l' _ IH|x y l|l l' l'' _ IH1 _ IH2]; cbn [List.filter].
  - reflexivity.
  - destruct (f x); [now constructor | exact IH].
  - destruct (f x), (f y); try reflexivity. apply perm_swap.
  - now rewrite IH1.
Qed.

Lemma filter_whole {A} (f : A -> bool) l :
  (forall x, In x l -> f x = true) -> List.filter f l = l.
Proof.
  induction l as [|x l IH]; [reflexivity|]. intros H. cbn.
  rewrite (H x) by now left. f_equal. apply IH. intros y Hy. apply H. now right.
Qed.

(** Filtering directories by a test on the base name is filtering groups
    by the same test on the key. *)
Lemma filter_groups (f : string -> bool) gs :
  (forall b ds, In (b, ds) gs -> forall d, In d ds -> extract_base_name d = b) ->
  List.filter (fun d => f (extract_base_name d)) (flat_map snd gs)
  = flat_map snd (List.filter (fun g => f (fst g)) gs).
Proof.
  induction gs as [|[b ds] gs IH]; intros H; [reflexivity|].
  cbn [flat_map List.filter fst snd]. rewrite List.filter_app, IH
    by (intros b' ds' Hin; apply H; now right).
  assert (Hb : forall d, In d ds -> extract_base_name d = b)
    by (apply (H b ds); now left).
  destruct (f b) eqn:Fb; cbn [flat_map snd].
  - rewrite filter_whole; [reflexivity|]. intros d Hd. now rewrite (Hb d Hd).
  - rewrite filter_none; [reflexivity|]. intros d Hd. now rewrite (Hb d Hd).
Qed.

Lemma groups_same_base dirs b ds d :
  In (b, ds) (group_extensions_by_base_name dirs) -> In d ds ->
  extract_base_name d = b.
Proof.
  intros Hg Hd.
  destruct (group_extensions_by_base_name_spec dirs) as (_ & Hitems & _).
  destruct (Hitems b ds Hg) as [-> _].
  apply List.filter_In in Hd as [_ Hd]. now apply String.eqb_eq.
Qed.

Lemma groups_flat dirs :
  Permutation (flat_map snd (group_extensions_by_base_name dirs)) dirs.
Proof.
  rewrite List.flat_map_concat_map. apply (group_fold_concat dirs []).
Qed.

Section Plans.

Variable keep_list : gset string.
Variable args : Args.

(** The lists of a completed decision phase, read off the groups. *)
Lemma decide_phase_closed w p w' :
  decide_phase keep_list args w = (Ok p, w') ->
  let gs := group_extensions_by_base_name (listing w) in
  to_remove p = flat_map snd (List.filter (fun g => negb (wanted keep_list g)) gs)
  /\ to_keep p
     = flat_map (kept_of (keep_all_versions args)) (List.filter (wanted keep_list) gs)
  /\ old_versions_to_remove p
     = flat_map (old_of (keep_all_versions args)) (List.filter (wanted keep_list) gs)
  /\ (keep_all_versions args = false ->
      forall g, In g gs -> wanted keep_list g = true ->
                exists l, latest_of (snd g) = Ok l).
Proof.
  unfold decide_phase. rewrite bind_run. cbn [get_installed_extensions].
  intros H. exact (decide_loop_closed keep_list args _ _ _ _ _ H).
Qed.

Lemma unwanted_perm w p w' :
  decide_phase keep_list args w = (Ok p, w') ->
  Permutation (to_remove p)
    (List.filter (fun d => negb (should_keep_extension d keep_list)) (listing w)).
Proof.
  intros D. destruct (decide_phase_closed _ _ _ D) as (-> & _).
  rewrite <- (filter_perm _ _ _ (groups_flat (listing w))).
  unfold should_keep_extension, wanted.
  pose proof (filter_groups (fun b => negb (bool_decide (b ∈ keep_list)))
                (group_extensions_by_base_name (listing w))
                (fun b ds Hin d Hd => groups_same_base (listing w) b ds d Hin Hd)) as F.
  cbn beta in F. rewrite F. reflexivity.
Qed.

Lemma wanted_perm w :
  Permutation
    (flat_map snd (List.filter (wanted keep_list)
                     (group_extensions_by_base_name (listing w))))
    (List.filter (fun d => should_keep_extension d keep_list) (listing w)).
Proof.
  rewrite <- (filter_perm _ _ _ (groups_flat (listing w))).
  unfold should_keep_extension, wanted.
  pose proof (filter_groups (fun b => bool_decide (b ∈ keep_list))
                (group_extensions_by_base_name (listing w))
                (fun b ds Hin d Hd => groups_same_base (listing w) b ds d Hin Hd)) as F.
  cbn beta in F. rewrite F. reflexivity.
Qed.

End Plans.

(** X10. What is removed as unwanted is exactly what [should_keep_extension]
    rejects, each listed directory once. *)
Theorem unwanted_exactly (keep_list : gset string) (args : Args)
    (w w' : World) (p : Plan) :
  decide_phase keep_list args w = (Ok p, w') ->
  Permutation (to_remove p)
    (List.filter (fun d => negb (should_keep_extension d keep_list)) (listing w))
  /\ forall d, In d (to_remove p)
               <-> In d (listing w) /\ should_keep_extension d keep_list = false.
Proof.
  intros D. pose proof (unwanted_perm keep_list args w p w' D) as P.
  split; [exact P|]. intros d. split.
  - intros Hd. apply (Permutation_in _ P) in Hd.
    apply List.filter_In in Hd as [Hd Hk]. split; [exact Hd|].
    now apply negb_true_iff.
  - intros [Hd Hk]. apply (Permutation_in _ (Permutation_sym P)).
    apply List.filter_In. split; [exact Hd|]. now apply negb_true_iff.
Qed.

Lemma unwanted_exactly_witness :
  In "c.d-1.0.0" ["c.d-1.0.0"]
  <-> In "c.d-1.0.0" ["a.b-1.0.0"; "a.b-1.2.0"; "c.d-1.0.0"]
      /\ should_keep_extension "c.d-1.0.0" {["a.b"]} = false.
Proof.
  refine (proj2 (unwanted_exactly {["a.b"]} (mkArgs false false)
                   (initial ["a.b-1.0.0"; "a.b-1.2.0"; "c.d-1.0.0"])
                   (add_compared (initial ["a.b-1.0.0"; "a.b-1.2.0"; "c.d-1.0.0"])
                      [("1.2.0", "1.0.0")])
                   (mkPlan ["c.d-1.0.0"] ["a.b-1.2.0"] ["a.b-1.0.0"]) _)
            "c.d-1.0.0").
  vm_compute. reflexivity.
Defined.

Lemma decide_loop_keep_all keep_list args gs :
  keep_all_versions args = true ->
  forall p w, exists p', decide_loop keep_list args gs p w = (Ok p', w).
Proof.
  intros Hall. induction gs as [|[b ds] gs IH]; intros p w; [now exists p|].
  cbn [decide_loop]. rewrite Hall. destruct (bool_decide _); apply IH.
Qed.

Lemma flat_map_same {A B} (f g : A -> list B) l :
  (forall x, In x l -> f x = g x) -> flat_map f l = flat_map g l.
Proof.
  induction l as [|x l IH]; [reflexivity|]. intros H. cbn.
  rewrite (H x) by now left. f_equal. apply IH. intros y Hy. apply H. now right.
Qed.

(** X11. With [--keep-all-versions] the decision phase always completes, leaves
    the world as it is (it compares and decodes nothing), marks no old
    version, keeps every directory that [should_keep_extension] accepts and
    removes every other one. *)
Theorem keep_all_versions_decides_by_name (keep_list : gset string)
    (args : Args) (w : World) :
  keep_all_versions args = true ->
  exists p,
    decide_phase keep_list args w = (Ok p, w)
    /\ old_versions_to_remove p = []
    /\ Permutation (to_keep p)
         (List.filter (fun d => should_keep_extension d keep_list) (listing w))
    /\ Permutation (to_remove p)
         (List.filter (fun d => negb (should_keep_extension d keep_list))
            (listing w)).
Proof.
  intros Hall.
  destruct (decide_loop_keep_all keep_list args
              (group_extensions_by_base_name (listing w)) Hall (mkPlan [] [] []) w)
    as [p Hp].
  assert (D : decide_phase keep_list args w = (Ok p, w)).
  { unfold decide_phase. rewrite bind_run. exact Hp. }
  exists p. split; [exact D|].
  destruct (decide_phase_closed _ _ _ _ _ D) as (_ & Hk & Ho & _).
  rewrite Hall in Hk, Ho. split; [|split].
  - rewrite Ho. generalize (List.filter (wanted keep_list)
                              (group_extensions_by_base_name (listing w))).
    intros l. now induction l.
  - rewrite Hk. apply wanted_perm.
  - exact (unwanted_perm _ _ _ _ _ D).
Qed.

Lemma keep_all_versions_decides_by_name_witness :
  exists p,
    decide_phase {["pkg"]} (mkArgs false true) (initial ["pkg-1.0-"; "pkg-1.0"; "x-1"])
    = (Ok p, initial ["pkg-1.0-"; "pkg-1.0"; "x-1"])
    /\ old_versions_to_remove p = [].
Proof.
  destruct (keep_all_versions_decides_by_name {["pkg"]} (mkArgs false true)
              (initial ["pkg-1.0-"; "pkg-1.0"; "x-1"]) eq_refl)
    as (p & D & Ho & _).
  exists p. now split.
Defined.

Lemma latest_and_others l ds :
  List.NoDup ds -> In l ds -> Permutation (l :: others l ds) ds.
Proof.
  induction ds as [|x ds IH]; [contradiction|].
  intros Hnd Hin. apply List.NoDup_cons_iff in Hnd as [Hx Hnd].
  unfold others. cbn [List.filter]. fold (others l ds).
  destruct (String.eqb_spec x l) as [->|Hne]; cbn [negb].
  - unfold others. rewrite filter_whole; [reflexivity|].
    intros y Hy. apply negb_true_iff, String.eqb_neq. intros ->. contradiction.
  - destruct Hin as [?|Hin]; [contradiction|].
    rewrite perm_swap. constructor. now apply IH.
Qed.

Lemma flat_map_app_perm {A B} (f g : A -> list B) l :
  Permutation (flat_map f l ++ flat_map g l) (flat_map (fun x => f x ++ g x) l).
Proof.
  induction l as [|x l IH]; [reflexivity|]. cbn [flat_map].
  rewrite <- IH, <- !app_assoc. apply Permutation_app_head.
  rewrite !app_assoc. apply Permutation_app_tail. apply Permutation_app_comm.
Qed.

Lemma flat_map_perm {A B} (f g : A -> list B) l :
  (forall x, In x l -> Permutation (f x) (g x)) ->
  Permutation (flat_map f l) (flat_map g l).
Proof.
  induction l as [|x l IH]; [reflexivity|]. intros H. cbn [flat_map].
  apply Permutation_app; [apply H; now left|].
  apply IH. intros y Hy. apply H. now right.
Qed.

Lemma flat_map_filter_split {A B} (f : A -> list B) (t : A -> bool) l :
  Permutation
    (flat_map f (List.filter t l) ++ flat_map f (List.filter (fun x => negb (t x)) l))
    (flat_map f l).
Proof.
  induction l as [|x l IH]; [reflexivity|]. cbn [List.filter flat_map].
  destruct (t x); cbn [negb flat_map].
  - rewrite <- app_assoc. now apply Permutation_app_head.
  - rewrite <- IH, !app_assoc. apply Permutation_app_tail.
    apply Permutation_app_comm.
Qed.

(** X12. Every listed directory gets exactly one decision. *)
Theorem every_directory_decided_once (keep_list : gset string) (args : Args)
    (w w' : World) (p : Plan) :
  List.NoDup (listing w) ->
  decide_phase keep_list args w = (Ok p, w') ->
  Permutation (to_keep p ++ to_remove p ++ old_versions_to_remove p) (listing w).
Proof.
  intros Hnd D.
  destruct (decide_phase_closed _ _ _ _ _ D) as (Hr & Hk & Ho & Hl).
  cbv zeta in *. set (gs := group_extensions_by_base_name (listing w)) in *.
  destruct (group_extensions_by_base_name_spec (listing w)) as (_ & Hitems & _).
  fold gs in Hitems.
  assert (Hkept : Permutation (to_keep p ++ old_versions_to_remove p)
                    (flat_map snd (List.filter (wanted keep_list) gs))).
  { rewrite Hk, Ho, flat_map_app_perm. apply flat_map_perm.
    intros [b ds] Hg. apply List.filter_In in Hg as [Hg Hw].
    unfold kept_of, old_of. cbn [snd].
    destruct (keep_all_versions args) eqn:Hall; [now rewrite app_nil_r|].
    destruct (Hl eq_refl _ Hg Hw) as [l L]. cbn [snd] in L. rewrite L.
    apply latest_and_others; [|now apply latest_of_in].
    destruct (Hitems b ds Hg) as [-> _]. now apply List.NoDup_filter. }
  rewrite (Permutation_app_comm (to_remove p)), app_assoc, Hkept, Hr.
  rewrite flat_map_filter_split. apply groups_flat.
Qed.

Lemma every_directory_decided_once_witness :
  Permutation (["a.b-1.2.0"] ++ ["c.d-1.0.0"] ++ ["a.b-1.0.0"])
    ["a.b-1.0.0"; "a.b-1.2.0"; "c.d-1.0.0"].
Proof.
  apply (every_directory_decided_once {["a.b"]} (mkArgs false false)
           (initial ["a.b-1.0.0"; "a.b-1.2.0"; "c.d-1.0.0"])
           (add_compared (initial ["a.b-1.0.0"; "a.b-1.2.0"; "c.d-1.0.0"])
              [("1.2.0", "1.0.0")])
           (mkPlan ["c.d-1.0.0"] ["a.b-1.2.0"] ["a.b-1.0.0"])).
  - repeat constructor; cbn; intuition discriminate.
  - vm_compute. reflexivity.
Defined.

Lemma latest_of_ok ds :
  ds <> [] -> ((2 <= length ds)%nat -> forall d, In d ds -> decodes d) ->
  exists l, latest_of ds = Ok l.
Proof.
  intros Hne Hdec. unfold latest_of.
  destruct ds as [|first [|second rest]]; [contradiction| |].
  - now exists first.
  - specialize (Hdec ltac:(cbn; lia)).
    destruct (decodes_decode first (Hdec _ (or_introl eq_refl))) as [e He].
    destruct (decodes_all (second :: rest)) as [es Hes];
      [intros d Hd; apply Hdec; now right|].
    destruct (find_latest_version_spec _ _ _ _ (initial []) He Hes)
      as (calls & _ & ->).
    eauto.
Qed.

Lemma latest_of_ok_inv ds l :
  latest_of ds = Ok l -> (2 <= length ds)%nat -> forall d, In d ds -> decodes d.
Proof.
  unfold latest_of. destruct (find_latest_version ds (initial [])) as [r w'] eqn:F.
  cbn. intros ->. destruct (find_latest_version_run _ _ _ _ F) as [_ H].
  now apply (H l).
Qed.

Section Runs.

Variable rmtree_fault : string -> option rm_exn.
Variable keep_list : gset string.
Variable args : Args.

Lemma main_ok_iff w :
  (exists z w', main rmtree_fault keep_list args w = (Ok z, w'))
  <-> exists p wd, decide_phase keep_list args w = (Ok p, wd).
Proof.
  unfold main. rewrite bind_run.
  destruct (decide_phase keep_list args w) as [[p|e] wd].
  - split; [eauto|]. intros _.
    destruct (removal_phase_run rmtree_fault p (dry_run args) wd)
      as (s & f & w' & m1 & m2 & R & _).
    destruct (to_remove p), (old_versions_to_remove p);
      try (rewrite bind_run, R); eexists _, _; reflexivity.
  - split; [intros (z & w' & [=]) | intros (p & w' & [=])].
Qed.

Lemma main_raise w e w' :
  main rmtree_fault keep_list args w = (Raise e, w') ->
  exists calls, w' = add_compared w calls.
Proof.
  unfold main. rewrite bind_run.
  destruct (decide_phase keep_list args w) as [[p|e0] wd] eqn:D.
  - destruct (removal_phase_run rmtree_fault p (dry_run args) wd)
      as (s & f & w2 & m1 & m2 & R & _).
    destruct (to_remove p), (old_versions_to_remove p);
      try (rewrite bind_run, R); discriminate.
  - intros [= _ <-]. unfold decide_phase in D. rewrite bind_run in D.
    exact (decide_loop_world _ _ _ _ _ _ _ D).
Qed.

End Runs.

(** X13. When a run completes.  [main] returns an exit status exactly when
    all versions are kept or every directory that is to be kept and shares
    its base name with another one decodes; a run that stops with an
    exception has removed nothing and printed no removal line. *)
Theorem main_completes_iff (rmtree_fault : string -> option rm_exn)
    (keep_list : gset string) (args : Args) (w : World) :
  ((exists z w', main rmtree_fault keep_list args w = (Ok z, w'))
   <-> (keep_all_versions args = true
        \/ forall d, In d (listing w) ->
                     should_keep_extension d keep_list = true ->
                     (2 <= length (group_of (extract_base_name d) (listing w)))%nat ->
                     decodes d))
  /\ (forall e w', main rmtree_fault keep_list args w = (Raise e, w') ->
        listing w' = listing w /\ rmtree_calls w' = rmtree_calls w
        /\ printed w' = printed w).
Proof.
  split.
  - rewrite main_ok_iff.
    destruct (group_extensions_by_base_name_spec (listing w))
      as (_ & Hitems & Hkeys).
    split.
    + intros (p & wd & D).
      destruct (keep_all_versions args) eqn:Hall; [now left | right].
      intros d Hd Hk Hlen.
      destruct (decide_phase_closed _ _ _ _ _ D) as (_ & _ & _ & Hl).
      pose proof (Hkeys d Hd) as Hkey.
      apply in_map_iff in Hkey as ([b ds] & Hb & Hg). cbn in Hb. subst b.
      destruct (Hl Hall _ Hg Hk) as [l L]. cbn [snd] in L.
      destruct (Hitems _ _ Hg) as [Hds _]. rewrite <- Hds in Hlen.
      apply (latest_of_ok_inv ds l L Hlen). rewrite Hds.
      apply List.filter_In. split; [exact Hd | apply String.eqb_refl].
    + intros H. unfold decide_phase.
      destruct (decide_loop_completes keep_list args
                  (group_extensions_by_base_name (listing w))) with
        (p := mkPlan [] [] []) (w := w) as (p & wd & Hp).
      * destruct H as [?|H]; [now left | right].
        intros [b ds] Hg Hw. cbn [snd]. destruct (Hitems b ds Hg) as [Hds Hne].
        apply latest_of_ok; [exact Hne|]. intros Hlen d Hd.
        rewrite Hds in Hd. apply List.filter_In in Hd as [Hd Hb].
        apply String.eqb_eq in Hb. apply H; [exact Hd| |].
        -- unfold should_keep_extension. now rewrite Hb.
        -- now rewrite Hb, <- Hds.
      * exists p, wd. rewrite bind_run. exact Hp.
  - intros e w' H. destruct (main_raise _ _ _ _ _ _ H) as (calls & ->).
    now repeat split.
Qed.

Lemma main_completes_iff_witness :
  exists z w',
    main (fun _ => None) {["pkg"]} (mkArgs false true)
      (initial ["pkg-1.0-"; "pkg-1.0"]) = (Ok z, w').
Proof.
  apply (main_completes_iff (fun _ => None) {["pkg"]} (mkArgs false true)
           (initial ["pkg-1.0-"; "pkg-1.0"])).
  now left.
Defined.

(** ** More on the removal phase *)

Section RealRuns.

Variable rmtree_fault : string -> option rm_exn.

(** The listing without the directories that the lines report removed. *)
Lemma remove_extension_real d reason w :
  exists ok msg listing',
    remove_extension rmtree_fault d false reason w
    = (Ok ok, mkWorld listing' (compared w) (rmtree_calls w ++ [d])
                (printed w ++ [msg]))
    /\ message_name msg = d
    /\ is_failure msg = negb ok
    /\ listing'
       = List.filter (fun x => negb (reports_removed x msg)) (listing w).
Proof.
  unfold remove_extension, rmtree.
  assert (Hsame : forall l : list string, List.filter (fun _ => negb false) l = l)
    by (intros l; apply filter_all).
  destruct (bool_decide (d ∈ listing w)).
  - destruct (rmtree_fault d) as [[]|].
    + exists false, (PermissionDenied d), (listing w). cbn. now rewrite Hsame.
    + exists false, (ErrorRemoving d), (listing w). cbn. now rewrite Hsame.
    + exists true, (Removed d reason), (others d (listing w)). cbn.
      repeat split. unfold others. apply List.filter_ext. intros x.
      now rewrite String.eqb_sym.
  - exists false, (ErrorRemoving d), (listing w). cbn. now rewrite Hsame.
Qed.

Lemma remove_loop_real dirs reason : forall counts w,
  exists s f w' msgs,
    remove_loop rmtree_fault dirs false reason counts w = (Ok (s, f), w')
    /\ printed w' = printed w ++ msgs
    /\ listing w'
       = List.filter (fun x => negb (existsb (reports_removed x) msgs)) (listing w)
    /\ f = (snd counts + length (List.filter is_failure msgs))%nat
    /\ map message_name msgs = dirs.
Proof.
  induction dirs as [|d dirs IH]; intros counts w.
  - exists (fst counts), (snd counts), w, []. cbn.
    rewrite app_nil_r, filter_all, Nat.add_0_r. now destruct counts.
  - cbn [remove_loop]. rewrite bind_run.
    destruct (remove_extension_real d reason w)
      as (ok & msg & l1 & -> & Hname & Hfail & Hl1).
    set (w1 := mkWorld _ _ _ _).
    set (counts1 := if ok then (S (fst counts), snd counts)
                    else (fst counts, S (snd counts))).
    destruct (IH counts1 w1) as (s & f & w' & msgs & Hrun & Hp & Hl & Hf & Hn).
    exists s, f, w', (msg :: msgs).
    split; [subst counts1; now destruct ok|].
    split; [rewrite Hp; subst w1; cbn; now rewrite <- app_assoc|].
    split.
    { rewrite Hl. subst w1. cbn [listing]. rewrite Hl1, filter_filter.
      apply List.filter_ext. intros x. cbn [existsb]. now rewrite negb_orb. }
    split; [|cbn; now rewrite Hname, Hn].
    subst f counts1. cbn [List.filter]. rewrite Hfail.
    destruct ok; cbn; lia.
Qed.

Lemma removal_phase_real p w :
  exists s f w' msgs,
    removal_phase rmtree_fault p false w = (Ok (s, f), w')
    /\ printed w' = printed w ++ msgs
    /\ listing w'
       = List.filter (fun x => negb (existsb (reports_removed x) msgs)) (listing w)
    /\ f = length (List.filter is_failure msgs)
    /\ map message_name msgs = to_remove p ++ old_versions_to_remove p.
Proof.
  unfold removal_phase. rewrite bind_run.
  destruct (remove_loop_real (to_remove p) "not in keep list" (O, O) w)
    as (s1 & f1 & w1 & m1 & -> & Hp1 & Hl1 & Hf1 & Hn1).
  destruct (remove_loop_real (old_versions_to_remove p) "old version" (s1, f1) w1)
    as (s2 & f2 & w2 & m2 & -> & Hp2 & Hl2 & Hf2 & Hn2).
  exists s2, f2, w2, (m1 ++ m2). split; [reflexivity|].
  split; [now rewrite Hp2, Hp1, <- app_assoc|]. split.
  { rewrite Hl2, Hl1, filter_filter. apply List.filter_ext. intros x.
    now rewrite existsb_app, negb_orb. }
  split; [|now rewrite map_app, Hn1, Hn2].
  rewrite List.filter_app, length_app. cbn [snd] in Hf1, Hf2. lia.
Qed.

(** A dry run of a removal loop: only lines are printed. *)
Lemma remove_loop_dry_world dirs reason : forall counts w,
  remove_loop rmtree_fault dirs true reason counts w
  = (Ok ((fst counts + length dirs)%nat, snd counts),
     mkWorld (listing w) (compared w) (rmtree_calls w)
       (printed w ++ map (fun d => WouldRemove d reason) dirs)).
Proof.
  induction dirs as [|d dirs IH]; intros [s f] w.
  - cbn. rewrite app_nil_r, Nat.add_0_r. now destruct w.
  - cbn [remove_loop]. rewrite bind_run.
    unfold remove_extension. rewrite bind_run. cbn.
    rewrite IH. cbn. rewrite <- app_assoc. repeat f_equal. lia.
Qed.

End RealRuns.

(** X14. A dry run deletes nothing.  With [--dry-run] the listing is left as
    it is, [shutil.rmtree] is never called, only "would remove" lines are
    printed, one for each decided removal, and the exit status is 0. *)
Theorem dry_run_changes_nothing (rmtree_fault : string -> option rm_exn)
    (keep_list : gset string) (args : Args) (w w' : World) (z : Z) :
  dry_run args = true ->
  main rmtree_fault keep_list args w = (Ok z, w') ->
  z = 0
  /\ listing w' = listing w
  /\ rmtree_calls w' = rmtree_calls w
  /\ exists p wd,
       decide_phase keep_list args w = (Ok p, wd)
       /\ printed w'
          = printed w
            ++ map (fun d => WouldRemove d "not in keep list") (to_remove p)
            ++ map (fun d => WouldRemove d "old version")
                 (old_versions_to_remove p).
Proof.
  intros Hdry. unfold main. rewrite bind_run.
  destruct (decide_phase keep_list args w) as [[p|e] wd] eqn:D; [|discriminate].
  assert (Hwd : exists calls, wd = add_compared w calls).
  { unfold decide_phase in D. rewrite bind_run in D.
    exact (decide_loop_world _ _ _ _ _ _ _ D). }
  destruct Hwd as (calls & ->). rewrite Hdry.
  assert (Hrem : (counts ← removal_phase rmtree_fault p true;
                  mret (if (snd counts =? 0)%nat then 0 else 1))
                   (add_compared w calls)
                 = (Ok z, w') ->
                 z = 0 /\ listing w' = listing w
                 /\ rmtree_calls w' = rmtree_calls w
                 /\ printed w'
                    = printed w
                      ++ map (fun d => WouldRemove d "not in keep list") (to_remove p)
                      ++ map (fun d => WouldRemove d "old version")
                           (old_versions_to_remove p)).
  { rewrite bind_run. unfold removal_phase. rewrite bind_run.
    rewrite remove_loop_dry_world, remove_loop_dry_world. cbn.
    intros [= <- <-]. cbn. now rewrite <- app_assoc. }
  intros H.
  assert (z = 0 /\ listing w' = listing w /\ rmtree_calls w' = rmtree_calls w
          /\ printed w'
             = printed w
               ++ map (fun d => WouldRemove d "not in keep list") (to_remove p)
               ++ map (fun d => WouldRemove d "old version")
                    (old_versions_to_remove p)) as (Hz & Hl & Hc & Hp).
  { destruct (to_remove p) as [|x xs] eqn:Er,
             (old_versions_to_remove p) as [|y ys] eqn:Eo;
      [|apply Hrem; exact H ..].
    injection H as <- <-. cbn. now rewrite app_nil_r. }
  split; [exact Hz|]. split; [exact Hl|]. split; [exact Hc|].
  exists p, (add_compared w calls). now split.
Qed.

Lemma dry_run_changes_nothing_witness :
  listing (snd (main (fun _ => None) {["a.b"]} (mkArgs true false)
                  (initial ["a.b-1.0.0"; "a.b-1.2.0"; "c.d-1.0.0"])))
  = ["a.b-1.0.0"; "a.b-1.2.0"; "c.d-1.0.0"].
Proof.
  apply (dry_run_changes_nothing (fun _ => None) {["a.b"]} (mkArgs true false)
           (initial ["a.b-1.0.0"; "a.b-1.2.0"; "c.d-1.0.0"]) _ 0);
    [reflexivity|].
  vm_compute. reflexivity.
Defined.

(** X15. The report of a real run is truthful.  The directories gone from the
    listing are exactly those for which a "Removed" line was printed; one
    line is printed for each decided removal; the exit status is 0 when no
    line reports a failure and 1 otherwise. *)
Theorem real_run_report_is_truthful (rmtree_fault : string -> option rm_exn)
    (keep_list : gset string) (args : Args) (w w' : World) (z : Z) :
  dry_run args = false ->
  main rmtree_fault keep_list args w = (Ok z, w') ->
  exists p wd msgs,
    decide_phase keep_list args w = (Ok p, wd)
    /\ printed w' = printed w ++ msgs
    /\ map message_name msgs = to_remove p ++ old_versions_to_remove p
    /\ listing w'
       = List.filter (fun d => negb (existsb (reports_removed d) msgs)) (listing w)
    /\ z = (if forallb (fun m => negb (is_failure m)) msgs then 0 else 1).
Proof.
  intros Hdry. unfold main. rewrite bind_run.
  destruct (decide_phase keep_list args w) as [[p|e] wd] eqn:D; [|discriminate].
  assert (Hwd : exists calls, wd = add_compared w calls).
  { unfold decide_phase in D. rewrite bind_run in D.
    exact (decide_loop_world _ _ _ _ _ _ _ D). }
  destruct Hwd as (calls & ->). rewrite Hdry. intros H.
  exists p, (add_compared w calls).
  assert (Hstatus : forall msgs : list message,
            (if (length (List.filter is_failure msgs) =? 0)%nat then 0 else 1)
            = (if forallb (fun m => negb (is_failure m)) msgs then 0 else 1)).
  { induction msgs as [|m msgs IH]; [reflexivity|]. cbn.
    now destruct (is_failure m). }
  assert (Hrem : (counts ← removal_phase rmtree_fault p false;
                  mret (if (snd counts =? 0)%nat then 0 else 1))
                   (add_compared w calls)
                 = (Ok z, w') ->
                 exists msgs,
                   printed w' = printed w ++ msgs
                   /\ map message_name msgs = to_remove p ++ old_versions_to_remove p
                   /\ listing w'
                      = List.filter
                          (fun d => negb (existsb (reports_removed d) msgs))
                          (listing w)
                   /\ z = (if forallb (fun m => negb (is_failure m)) msgs
                           then 0 else 1)).
  { rewrite bind_run.
    destruct (removal_phase_real rmtree_fault p (add_compared w calls))
      as (s & f & w2 & msgs & -> & Hp & Hl & Hf & Hn).
    cbn. intros [= <- <-]. exists msgs. rewrite Hf, Hstatus. now repeat split. }
  destruct (to_remove p) as [|x xs] eqn:Er,
           (old_versions_to_remove p) as [|y ys] eqn:Eo;
    [|destruct (Hrem H) as (msgs & Hm); exists msgs; now split ..].
  injection H as <- <-. exists []. cbn. rewrite app_nil_r, filter_all.
  now repeat split.
Qed.

Lemma real_run_report_is_truthful_witness :
  exists p wd msgs,
    decide_phase {["a.b"]} (mkArgs false false)
      (initial ["a.b-1.0.0"; "a.b-1.2.0"; "c.d-1.0.0"]) = (Ok p, wd)
    /\ map message_name msgs = to_remove p ++ old_versions_to_remove p.
Proof.
  destruct (real_run_report_is_truthful
              (fun d => if String.eqb d "c.d-1.0.0" then Some PermissionError else None)
              {["a.b"]} (mkArgs false false)
              (initial ["a.b-1.0.0"; "a.b-1.2.0"; "c.d-1.0.0"])
              (mkWorld ["a.b-1.2.0"; "c.d-1.0.0"] [("1.2.0", "1.0.0")]
                 ["c.d-1.0.0"; "a.b-1.0.0"]
                 [PermissionDenied "c.d-1.0.0"; Removed "a.b-1.0.0" "old version"])
              1)
    as (p & wd & msgs & D & _ & Hn & _).
  - reflexivity.
  - vm_compute. reflexivity.
  - exists p, wd, msgs. now split.
Defined.

Section Survival.

Variable rmtree_fault : string -> option rm_exn.
Variable keep_list : gset string.
Variable args : Args.

(** Whatever the mode, the listing after the removal phase is the listing
    before it without the directories reported removed, and every line is
    about a decided removal. *)
Lemma removal_phase_listing_any p dry w r w' :
  removal_phase rmtree_fault p dry w = (r, w') ->
  exists msgs,
    map message_name msgs = to_remove p ++ old_versions_to_remove p
    /\ listing w'
       = List.filter (fun d => negb (existsb (reports_removed d) msgs)) (listing w).
Proof.
  destruct dry.
  - unfold removal_phase. rewrite bind_run, remove_loop_dry_world.
    rewrite remove_loop_dry_world. intros [= _ <-]. cbn [listing].
    exists (map (fun d => WouldRemove d "not in keep list") (to_remove p)
            ++ map (fun d => WouldRemove d "old version") (old_versions_to_remove p)).
    split.
    + rewrite map_app, !map_map. cbn. now rewrite !map_id.
    + symmetry. apply filter_whole. intros d _. apply negb_true_iff.
      rewrite existsb_app. apply orb_false_iff.
      split; apply not_true_is_false; rewrite existsb_exists;
        intros (m & Hm & Hr); apply in_map_iff in Hm as (x & <- & _);
        discriminate Hr.
  - destruct (removal_phase_real rmtree_fault p w)
      as (s & f & w2 & msgs & -> & _ & Hl & _ & Hn).
    intros [= _ <-]. now exists msgs.
Qed.

Lemma main_listing w z w' p wd :
  main rmtree_fault keep_list args w = (Ok z, w') ->
  decide_phase keep_list args w = (Ok p, wd) ->
  exists msgs,
    map message_name msgs = to_remove p ++ old_versions_to_remove p
    /\ listing w'
       = List.filter (fun d => negb (existsb (reports_removed d) msgs)) (listing w).
Proof.
  intros H D. unfold main in H. rewrite bind_run, D in H.
  assert (Hwd : listing wd = listing w).
  { unfold decide_phase in D. rewrite bind_run in D.
    destruct (decide_loop_world _ _ _ _ _ _ _ D) as (calls & ->). reflexivity. }
  assert (Hrem : (counts ← removal_phase rmtree_fault p (dry_run args);
                  mret (if (snd counts =? 0)%nat then 0 else 1)) wd
                 = (Ok z, w') ->
                 exists msgs,
                   map message_name msgs = to_remove p ++ old_versions_to_remove p
                   /\ listing w'
                      = List.filter
                          (fun d => negb (existsb (reports_removed d) msgs))
                          (listing w)).
  { rewrite bind_run.
    destruct (removal_phase rmtree_fault p (dry_run args) wd) as [[c|e] w2] eqn:R;
      [|discriminate].
    intros [= _ <-].
    destruct (removal_phase_listing_any _ _ _ _ _ R) as (msgs & Hn & Hl).
    exists msgs. now rewrite Hl, Hwd. }
  destruct (to_remove p) as [|x xs] eqn:Er,
           (old_versions_to_remove p) as [|y ys] eqn:Eo;
    [|apply Hrem; exact H ..].
  injection H as _ <-. exists []. cbn. now rewrite filter_all, Hwd.
Qed.

(** What is kept is listed and is marked for no removal. *)
Lemma kept_not_removed w p wd d :
  decide_phase keep_list args w = (Ok p, wd) ->
  In d (to_keep p) ->
  In d (listing w)
  /\ ~ In d (to_remove p) /\ ~ In d (old_versions_to_remove p).
Proof.
  intros D Hd.
  destruct (decide_phase_closed _ _ _ _ _ D) as (Hr & Hk & Ho & Hl).
  cbv zeta in *. set (gs := group_extensions_by_base_name (listing w)) in *.
  destruct (group_extensions_by_base_name_spec (listing w)) as (_ & Hitems & _).
  fold gs in Hitems.
  rewrite Hk in Hd. apply in_flat_map in Hd as ([b ds] & Hg & Hd).
  apply List.filter_In in Hg as [Hg Hw].
  destruct (Hitems b ds Hg) as [Hds _].
  assert (Hin : In d ds /\ (keep_all_versions args = false -> latest_of ds = Ok d)).
  { unfold kept_of in Hd. cbn [snd] in Hd.
    destruct (keep_all_versions args) eqn:Hall; [split; [exact Hd | discriminate]|].
    destruct (Hl eq_refl _ Hg Hw) as [l L]. cbn [snd] in L. rewrite L in Hd.
    destruct Hd as [<-|[]]. split; [now apply latest_of_in | now intros _]. }
  destruct Hin as [Hin Hlatest].
  pose proof Hin as Hin'. rewrite Hds in Hin'.
  apply List.filter_In in Hin' as [Hlist Hbase]. apply String.eqb_eq in Hbase.
  split; [exact Hlist|]. split.
  - intros Hrm. apply (Permutation_in _ (unwanted_perm _ _ _ _ _ D)) in Hrm.
    apply List.filter_In in Hrm as [_ Hrm]. apply negb_true_iff in Hrm.
    unfold should_keep_extension in Hrm. unfold wanted in Hw. cbn [fst] in Hw.
    rewrite Hbase in Hrm. congruence.
  - intros Hold. rewrite Ho in Hold.
    apply in_flat_map in Hold as ([b' ds'] & Hg' & Hold).
    apply List.filter_In in Hg' as [Hg' Hw'].
    destruct (Hitems b' ds' Hg') as [Hds' _].
    unfold old_of in Hold. cbn [snd] in Hold.
    destruct (keep_all_versions args) eqn:Hall; [contradiction|].
    destruct (latest_of ds') as [l'|] eqn:L'; [|contradiction].
    apply List.filter_In in Hold as [Hin2 Hne].
    assert (b' = b).
    { rewrite Hds' in Hin2. apply List.filter_In in Hin2 as [_ Hb'].
      apply String.eqb_eq in Hb'. congruence. }
    subst b'. rewrite <- Hds in Hds'. subst ds'.
    rewrite (Hlatest eq_refl) in L'. injection L' as <-.
    rewrite String.eqb_refl in Hne. discriminate.
Qed.

End Survival.

(** X16. A run removes nothing but what it decided to remove, and never what
    it decided to keep.  After a completed run, dry or real, every kept
    directory is still listed, nothing new is listed, and a directory that
    is gone was marked unwanted or old. *)
Theorem run_removes_only_what_it_decided
    (rmtree_fault : string -> option rm_exn) (keep_list : gset string)
    (args : Args) (w w' wd : World) (z : Z) (p : Plan) :
  main rmtree_fault keep_list args w = (Ok z, w') ->
  decide_phase keep_list args w = (Ok p, wd) ->
  (forall d, In d (to_keep p) -> In d (listing w) /\ In d (listing w'))
  /\ (forall d, In d (listing w') -> In d (listing w))
  /\ (forall d, In d (listing w) -> ~ In d (listing w') ->
                In d (to_remove p ++ old_versions_to_remove p)).
Proof.
  intros H D.
  destruct (main_listing _ _ _ _ _ _ _ _ H D) as (msgs & Hn & Hl).
  assert (Hrep : forall d, existsb (reports_removed d) msgs = true ->
                           In d (to_remove p ++ old_versions_to_remove p)).
  { intros d Hd. apply existsb_exists in Hd as (m & Hm & Hr).
    rewrite <- Hn. apply in_map_iff. exists m. split; [|exact Hm].
    destruct m; try discriminate Hr. now apply String.eqb_eq in Hr. }
  split; [|split].
  - intros d Hd.
    destruct (kept_not_removed keep_list args _ _ _ _ D Hd) as (Hlist & Hr & Ho).
    split; [exact Hlist|]. rewrite Hl. apply List.filter_In.
    split; [exact Hlist|]. apply negb_true_iff, not_true_is_false.
    intros Hrem. apply Hrep, in_app_iff in Hrem as [?|?]; contradiction.
  - intros d Hd. rewrite Hl in Hd. now apply List.filter_In in Hd as [Hd _].
  - intros d Hd Hgone. apply Hrep.
    destruct (existsb (reports_removed d) msgs) eqn:E; [reflexivity|].
    destruct Hgone. rewrite Hl. apply List.filter_In. now rewrite E.
Qed.

Lemma run_removes_only_what_it_decided_witness :
  In "a.b-1.2.0" ["a.b-1.0.0"; "a.b-1.2.0"; "c.d-1.0.0"]
  /\ In "a.b-1.2.0" ["a.b-1.2.0"].
Proof.
  refine (proj1 (run_removes_only_what_it_decided (fun _ => None) {["a.b"]}
                   (mkArgs false false)
                   (initial ["a.b-1.0.0"; "a.b-1.2.0"; "c.d-1.0.0"])
                   (mkWorld ["a.b-1.2.0"] [("1.2.0", "1.0.0")]
                      ["c.d-1.0.0"; "a.b-1.0.0"]
                      [Removed "c.d-1.0.0" "not in keep list";
                       Removed "a.b-1.0.0" "old version"])
                   (add_compared (initial ["a.b-1.0.0"; "a.b-1.2.0"; "c.d-1.0.0"])
                      [("1.2.0", "1.0.0")])
                   0 (mkPlan ["c.d-1.0.0"] ["a.b-1.2.0"] ["a.b-1.0.0"]) _ _)
            "a.b-1.2.0" _).
  - vm_compute. reflexivity.
  - vm_compute. reflexivity.
  - now left.
Defined.

(** ** The keep list *)

Lemma lstrip_whitespace_shape s :
  Py.lstrip_whitespace s = ""
  \/ exists c r, Py.lstrip_whitespace s = String c r /\ Py.is_whitespace c = false.
Proof.
  induction s as [|c s IH]; [now left|]. cbn.
  destruct (Py.is_whitespace c) eqn:W; [exact IH|]. right. now exists c, s.
Qed.

Lemma rstrip_whitespace_idem s :
  Py.rstrip_whitespace (Py.rstrip_whitespace s) = Py.rstrip_whitespace s.
Proof.
  induction s as [|c s IH]; [reflexivity|].
  change (Py.rstrip_whitespace (String c s))
    with (if Py.is_empty (Py.rstrip_whitespace s) && Py.is_whitespace c
          then "" else String c (Py.rstrip_whitespace s)).
  destruct (Py.is_empty (Py.rstrip_whitespace s) && Py.is_whitespace c) eqn:E;
    [reflexivity|].
  change (Py.rstrip_whitespace (String c (Py.rstrip_whitespace s)))
    with (if Py.is_empty (Py.rstrip_whitespace (Py.rstrip_whitespace s))
             && Py.is_whitespace c
          then "" else String c (Py.rstrip_whitespace (Py.rstrip_whitespace s))).
  now rewrite IH, E.
Qed.

Lemma rstrip_whitespace_cons c r :
  Py.is_whitespace c = false ->
  Py.rstrip_whitespace (String c r) = String c (Py.rstrip_whitespace r).
Proof.
  intros W.
  change (Py.rstrip_whitespace (String c r))
    with (if Py.is_empty (Py.rstrip_whitespace r) && Py.is_whitespace c
          then "" else String c (Py.rstrip_whitespace r)).
  now rewrite W, andb_false_r.
Qed.

Lemma strip_idem s : Py.strip (Py.strip s) = Py.strip s.
Proof.
  unfold Py.strip.
  destruct (lstrip_whitespace_shape s) as [->|(c & r & -> & W)]; [reflexivity|].
  rewrite (rstrip_whitespace_cons c r W).
  change (Py.lstrip_whitespace (String c (Py.rstrip_whitespace r)))
    with (if Py.is_whitespace c then Py.lstrip_whitespace (Py.rstrip_whitespace r)
          else String c (Py.rstrip_whitespace r)).
  rewrite W, (rstrip_whitespace_cons c _ W).
  now rewrite rstrip_whitespace_idem.
Qed.

Lemma read_extensions_to_keep_spec lines x :
  x ∈ read_extensions_to_keep lines
  <-> (exists line, In line lines /\ Py.strip line = x)
      /\ x <> "" /\ Py.startswith "#" x = false.
Proof.
  unfold read_extensions_to_keep.
  rewrite elem_of_list_to_set, list_elem_of_In, in_map_iff. split.
  - intros (line & <- & Hin). apply List.filter_In in Hin as [Hin Hok].
    apply andb_true_iff in Hok as [Hne Hc].
    apply negb_true_iff in Hne, Hc. split; [now exists line|].
    split; [|exact Hc]. intros E. now rewrite E in Hne.
  - intros ((line & Hin & <-) & Hne & Hc). exists line. split; [reflexivity|].
    apply List.filter_In. split; [exact Hin|].
    rewrite Hc. destruct (Py.strip line); [contradiction | reflexivity].
Qed.

(** X18. Only the lines that name an extension count, and only as a set.
    Two files whose lines differ in order, in repetitions, in blank lines,
    in comment lines or in surrounding whitespace give the same keep list;
    the keep list of two files one after the other is the union. *)
Theorem keep_list_depends_on_names_only (lines1 lines2 : list string) :
  ((forall x, x <> "" -> Py.startswith "#" x = false ->
              ((exists line, In line lines1 /\ Py.strip line = x)
               <-> (exists line, In line lines2 /\ Py.strip line = x))) ->
   read_extensions_to_keep lines1 = read_extensions_to_keep lines2)
  /\ read_extensions_to_keep (lines1 ++ lines2)
     = read_extensions_to_keep lines1 ∪ read_extensions_to_keep lines2.
Proof.
  split.
  - intros H. apply set_eq. intros x. rewrite !read_extensions_to_keep_spec.
    split; intros (Hl & Hne & Hc); (split; [|now split]); now apply (H x Hne Hc).
  - apply set_eq. intros x.
    rewrite elem_of_union, !read_extensions_to_keep_spec. split.
    + intros ((line & Hin & Hs) & Hne & Hc).
      apply in_app_iff in Hin as [Hin|Hin]; [left|right];
        (split; [now exists line | now split]).
    + intros [((line & Hin & Hs) & Hne & Hc)|((line & Hin & Hs) & Hne & Hc)];
        (split; [exists line; split; [apply in_app_iff; auto | exact Hs]
                | now split]).
Qed.

Lemma keep_list_depends_on_names_only_witness :
  read_extensions_to_keep ["a.b"; "# note"; "c.d"]
  = read_extensions_to_keep [" c.d "; ""; "a.b"; "a.b"].
Proof.
  apply (proj1 (keep_list_depends_on_names_only ["a.b"; "# note"; "c.d"]
                  [" c.d "; ""; "a.b"; "a.b"])).
  intros x Hne Hc. split.
  - intros (line & [<-|[<-|[<-|[]]]] & <-).
    + exists "a.b". split; [right; right; now left | reflexivity].
    + discriminate Hc.
    + exists " c.d ". split; [now left | reflexivity].
  - intros (line & [<-|[<-|[<-|[<-|[]]]]] & <-).
    + exists "c.d". split; [right; right; now left | reflexivity].
    + now destruct Hne.
    + exists "a.b". split; [now left | reflexivity].
    + exists "a.b". split; [now left | reflexivity].
Defined.

(** X19. Dotted integers compare as sequences of integers.  For two versions
    all of whose segments [int] accepts, [compare_versions] is the sign of
    the first difference between the two sequences of integers, the
    shorter one continued with zeros: numeric, not textual. *)
Theorem numeric_versions_compare_as_integers (a b : string) :
  numeric a -> numeric b ->
  compare_versions a b
  = Spec.first_difference
      (map (fun i => Spec.sign (position_value (Py.split "." a) i
                                ?= position_value (Py.split "." b) i))
         (seq 0 (Nat.max (length (Py.split "." a)) (length (Py.split "." b)))))
  /\ (forall i, (length (Py.split "." a) <= i)%nat ->
                position_value (Py.split "." a) i = 0).
Proof.
  intros Na Nb. split.
  - apply numeric_compare; try assumption; try (now apply numeric_not_empty).
    reflexivity.
  - intros i Hi. now apply position_value_past.
Qed.

Lemma numeric_versions_compare_as_integers_witness :
  compare_versions "1.9" "1.10.0" = -1.
Proof.
  rewrite (proj1 (numeric_versions_compare_as_integers "1.9" "1.10.0"
                    ltac:(repeat constructor; vm_compute; eauto)
                    ltac:(repeat constructor; vm_compute; eauto))).
  reflexivity.
Defined.

(** X20. A kept group all of whose directories decode.  For a group whose
    base name is in the keep set, without [--keep-all-versions], and whose
    directories decode to the entries [e :: es]: the loop keeps the raw
    name that the left-to-right scan of the specification selects (a
    current entry replaces the running best exactly when its version
    compares greater, or equal with a longer raw name), makes one
    comparison per directory after the first, and marks every other
    directory of the group as an old version; the removal loops of any
    plan handle the unwanted directories first and then the old versions,
    and name "old version" as the reason for each of the latter that is
    not reported as a failure. *)
Theorem latest_kept_others_old
    (keep_list : gset string) (args : Args) (b first : string)
    (rest : list string) (groups : list (string * list string))
    (p : Plan) (w : World) (e : Entry) (es : list Entry) :
  b ∈ keep_list ->
  keep_all_versions args = false ->
  decode first = Ok e ->
  Forall2 (fun d e => decode d = Ok e) rest es ->
  let latest := rawName (Spec.latest e es) in
  (exists calls,
      length calls = length rest
      /\ decide_loop keep_list args ((b, first :: rest) :: groups) p w
         = decide_loop keep_list args groups
             (mkPlan (to_remove p) (to_keep p ++ [latest])
                (old_versions_to_remove p ++ others latest (first :: rest)))
             (add_compared w calls))
  /\ (forall d, In d (first :: rest) -> d <> latest ->
                In d (others latest (first :: rest)))
  /\ (forall rmtree_fault dry p' w',
        exists counts w'' msgs1 msgs2,
          removal_phase rmtree_fault p' dry w' = (Ok counts, w'')
          /\ printed w'' = printed w' ++ msgs1 ++ msgs2
          /\ map message_name msgs1 = to_remove p'
          /\ map message_name msgs2 = old_versions_to_remove p'
          /\ Forall (fun m => is_failure m = false ->
                              message_reason m = Some "old version") msgs2).
Proof.
  intros Hb Hall He Hes latest. split; [|split].
  - destruct (find_latest_version_spec first rest e es w He Hes)
      as (calls & Hlen & Hfind).
    exists calls. split; [exact Hlen|].
    cbn [decide_loop]. rewrite bool_decide_eq_true_2 by exact Hb.
    rewrite Hall, bind_run, Hfind. reflexivity.
  - intros d. apply others_in.
  - intros fault dry p' w'.
    destruct (removal_phase_run fault p' dry w')
      as (s & f & w'' & msgs1 & msgs2 & Hrun & Hp & Hn1 & Hn2 & _ & _ & _ & _
          & _ & Hr2 & _).
    exists (s, f), w'', msgs1, msgs2. auto.
Qed.

Lemma latest_kept_others_old_witness :
  exists calls,
    length calls = 1%nat
    /\ decide_loop {["a.b"]} (mkArgs false false)
         [("a.b", ["a.b-1.0.0"; "a.b-1.2.0"])] (mkPlan [] [] []) (initial [])
       = (Ok (mkPlan [] ["a.b-1.2.0"] ["a.b-1.0.0"]), add_compared (initial []) calls).
Proof.
  destruct (latest_kept_others_old {["a.b"]} (mkArgs false false) "a.b"
              "a.b-1.0.0" ["a.b-1.2.0"] [] (mkPlan [] [] []) (initial [])
              (mkEntry "a.b-1.0.0" "a.b" "1.0.0" "")
              [mkEntry "a.b-1.2.0" "a.b" "1.2.0" ""])
    as [(calls & Hlen & Hrun) _].
  - vm_compute. reflexivity.
  - reflexivity.
  - reflexivity.
  - repeat constructor.
  - exists calls. split; [exact Hlen | exact Hrun].
Defined.

(** X21. Every run that completes attempts each decided removal once.
    Whenever [main] returns an exit status, the decision phase has produced
    a plan, and from there on: exactly one line is printed for each
    directory decided for removal, unwanted ones first and old versions
    after them; in a real run [shutil.rmtree] is called exactly once for
    each of them, in that order, also after failures, and in a dry run it
    is not called; the exit status is 1 exactly when some line reports a
    failure; and a directory that cannot be removed is reported as a
    failure. *)
Theorem completed_run_attempts_each_decided_removal_once
    (rmtree_fault : string -> option rm_exn) (keep_list : gset string)
    (args : Args) (w w' : World) (z : Z) :
  main rmtree_fault keep_list args w = (Ok z, w') ->
  exists p wd msgs,
    decide_phase keep_list args w = (Ok p, wd)
    /\ printed wd = printed w
    /\ rmtree_calls wd = rmtree_calls w
    /\ printed w' = printed w ++ msgs
    /\ map message_name msgs = to_remove p ++ old_versions_to_remove p
    /\ rmtree_calls w'
       = rmtree_calls w
         ++ (if dry_run args then []
             else to_remove p ++ old_versions_to_remove p)
    /\ z = (if forallb (fun m => negb (is_failure m)) msgs then 0 else 1)
    /\ (dry_run args = false ->
        forall d, In d (to_remove p ++ old_versions_to_remove p) ->
                  rmtree_fault d <> None ->
                  exists m, In m msgs /\ message_name m = d /\ is_failure m = true).
Proof.
  unfold main. rewrite bind_run.
  destruct (decide_phase keep_list args w) as [[p|e] wd] eqn:D; [|discriminate].
  assert (Hwd : exists calls, wd = add_compared w calls).
  { unfold decide_phase in D. rewrite bind_run in D.
    exact (decide_loop_world _ _ _ _ _ _ _ D). }
  destruct Hwd as (calls & ->). intros H.
  exists p, (add_compared w calls).
  assert (Hstatus : forall msgs : list message,
            (if (length (List.filter is_failure msgs) =? 0)%nat then 0 else 1)
            = (if forallb (fun m => negb (is_failure m)) msgs then 0 else 1)).
  { induction msgs as [|m msgs IH]; [reflexivity|]. cbn.
    now destruct (is_failure m). }
  set (decided := to_remove p ++ old_versions_to_remove p).
  assert (Hrem : (counts ← removal_phase rmtree_fault p (dry_run args);
                  mret (if (snd counts =? 0)%nat then 0 else 1))
                   (add_compared w calls)
                 = (Ok z, w') ->
                 exists msgs,
                   printed w' = printed w ++ msgs
                   /\ map message_name msgs = decided
                   /\ rmtree_calls w'
                      = rmtree_calls w ++ (if dry_run args then [] else decided)
                   /\ z = (if forallb (fun m => negb (is_failure m)) msgs
                           then 0 else 1)
                   /\ (dry_run args = false ->
                       forall d, In d decided -> rmtree_fault d <> None ->
                       exists m, In m msgs /\ message_name m = d
                                 /\ is_failure m = true)).
  { rewrite bind_run.
    destruct (removal_phase_run rmtree_fault p (dry_run args)
                (add_compared w calls))
      as (s & f & w2 & msgs1 & msgs2 & -> & Hp & Hn1 & Hn2 & Hc & _ & _ & Hf
          & _ & _ & Hfl).
    cbn. intros [= <- <-]. exists (msgs1 ++ msgs2).
    rewrite Hf, Hstatus. split; [exact Hp|].
    split; [now rewrite map_app, Hn1, Hn2|].
    split; [exact Hc|]. split; [reflexivity | exact Hfl]. }
  assert (Hnone : decided = [] -> (Ok 0, add_compared w calls) = (Ok z, w') ->
                  exists msgs,
                    printed w' = printed w ++ msgs
                    /\ map message_name msgs = decided
                    /\ rmtree_calls w'
                       = rmtree_calls w ++ (if dry_run args then [] else decided)
                    /\ z = (if forallb (fun m => negb (is_failure m)) msgs
                            then 0 else 1)
                    /\ (dry_run args = false ->
                        forall d, In d decided -> rmtree_fault d <> None ->
                        exists m, In m msgs /\ message_name m = d
                                  /\ is_failure m = true)).
  { intros -> [= <- <-]. exists []. cbn. rewrite !app_nil_r.
    split; [reflexivity|]. split; [reflexivity|].
    split; [destruct (dry_run args); now rewrite app_nil_r|].
    split; [reflexivity|]. intros _ d []. }
  assert (Hall : exists msgs,
                   printed w' = printed w ++ msgs
                   /\ map message_name msgs = decided
                   /\ rmtree_calls w'
                      = rmtree_calls w ++ (if dry_run args then [] else decided)
                   /\ z = (if forallb (fun m => negb (is_failure m)) msgs
                           then 0 else 1)
                   /\ (dry_run args = false ->
                       forall d, In d decided -> rmtree_fault d <> None ->
                       exists m, In m msgs /\ message_name m = d
                                 /\ is_failure m = true)).
  { subst decided.
    destruct (to_remove p) as [|x xs], (old_versions_to_remove p) as [|y ys];
      [apply Hnone; [reflexivity | exact H] | apply Hrem; exact H ..]. }
  destruct Hall as (msgs & Hp & Hn & Hc & Hz & Hfl).
  exists msgs. split; [reflexivity|]. split; [reflexivity|].
  split; [reflexivity|].
  split; [exact Hp|]. split; [exact Hn|]. split; [exact Hc|].
  split; [exact Hz | exact Hfl].
Qed.

Lemma completed_run_attempts_each_decided_removal_once_witness :
  exists p wd msgs,
    decide_phase {["a.b"]} (mkArgs false false)
      (initial ["a.b-1.0.0"; "a.b-1.2.0"; "c.d-1.0.0"]) = (Ok p, wd)
    /\ map message_name msgs = to_remove p ++ old_versions_to_remove p
    /\ ["c.d-1.0.0"; "a.b-1.0.0"] = [] ++ to_remove p ++ old_versions_to_remove p
    /\ 1 = (if forallb (fun m => negb (is_failure m)) msgs then 0 else 1).
Proof.
  destruct (completed_run_attempts_each_decided_removal_once
              (fun d => if String.eqb d "c.d-1.0.0" then Some PermissionError else None)
              {["a.b"]} (mkArgs false false)
              (initial ["a.b-1.0.0"; "a.b-1.2.0"; "c.d-1.0.0"])
              (mkWorld ["a.b-1.2.0"; "c.d-1.0.0"] [("1.2.0", "1.0.0")]
                 ["c.d-1.0.0"; "a.b-1.0.0"]
                 [PermissionDenied "c.d-1.0.0"; Removed "a.b-1.0.0" "old version"])
              1)
    as (p & wd & msgs & D & _ & _ & _ & Hn & Hc & Hz & _).
  - vm_compute. reflexivity.
  - exists p, wd, msgs. split; [exact D|]. split; [exact Hn|].
    split; [exact Hc | exact Hz].
Defined.

(** X22. The removal loops on their own, for any plan, dry or real and
    whatever fails: they never raise; they handle the decided directories one by one,
    unwanted ones first, printing exactly one line for each; in a real run
    [shutil.rmtree] is called exactly once for each of them, in that order,
    also after failures; the failure count is the number of error lines,
    successes and failures add up to the number of decided removals, and a
    directory that cannot be removed is reported as a failure. *)
Theorem removal_loops_attempt_each_once
    (rmtree_fault : string -> option rm_exn) (p : Plan) (dry : bool)
    (w : World) :
  let decided := to_remove p ++ old_versions_to_remove p in
  exists s f w' msgs,
    removal_phase rmtree_fault p dry w = (Ok (s, f), w')
    /\ printed w' = printed w ++ msgs
    /\ map message_name msgs = decided
    /\ rmtree_calls w' = rmtree_calls w ++ (if dry then [] else decided)
    /\ f = length (List.filter is_failure msgs)
    /\ (s + f = length decided)%nat
    /\ (if dry then f = O
        else forall d, In d decided -> rmtree_fault d <> None ->
             exists m, In m msgs /\ message_name m = d /\ is_failure m = true).
Proof.
  intros decided.
  destruct (removal_phase_run rmtree_fault p dry w)
    as (s & f & w' & msgs1 & msgs2 & Hrun & Hp & Hn1 & Hn2 & Hc & _ & Hs & Hf
        & Hr1 & Hr2 & Hfl).
  exists s, f, w', (msgs1 ++ msgs2).
  assert (Hnames : map message_name (msgs1 ++ msgs2) = decided).
  { now rewrite map_app, Hn1, Hn2. }
  split; [exact Hrun|]. split; [exact Hp|]. split; [exact Hnames|].
  split; [exact Hc|]. split; [exact Hf|]. split.
  - rewrite <- Hnames, length_map, Hs, Hf, Nat.add_comm.
    apply List.filter_length.
  - destruct dry; [|now apply Hfl].
    revert Hrun. unfold removal_phase. rewrite bind_run.
    destruct (remove_loop_dry rmtree_fault (to_remove p) "not in keep list"
                (O, O) w) as (w1 & ->).
    cbv beta iota.
    destruct (remove_loop_dry rmtree_fault (old_versions_to_remove p)
                "old version" ((fst (O, O) + length (to_remove p))%nat, snd (O, O)) w1)
      as (w2 & ->).
    now intros [= _ <- _].
Qed.

Lemma removal_loops_attempt_each_once_witness :
  exists s f w' msgs,
    removal_phase
      (fun d => if String.eqb d "c.d-1.0.0" then Some PermissionError else None)
      (mkPlan ["c.d-1.0.0"] ["a.b-1.2.0"] ["a.b-1.0.0"]) false
      (initial ["a.b-1.0.0"; "a.b-1.2.0"; "c.d-1.0.0"])
    = (Ok (s, f), w')
    /\ map message_name msgs = ["c.d-1.0.0"; "a.b-1.0.0"]
    /\ rmtree_calls w' = ["c.d-1.0.0"; "a.b-1.0.0"]
    /\ (s + f = 2)%nat.
Proof.
  destruct (removal_loops_attempt_each_once
              (fun d => if String.eqb d "c.d-1.0.0" then Some PermissionError
                        else None)
              (mkPlan ["c.d-1.0.0"] ["a.b-1.2.0"] ["a.b-1.0.0"]) false
              (initial ["a.b-1.0.0"; "a.b-1.2.0"; "c.d-1.0.0"]))
    as (s & f & w' & msgs & Hrun & _ & Hn & Hc & _ & Hsum & _).
  exists s, f, w', msgs. split; [exact Hrun|]. split; [exact Hn|].
  split; [exact Hc | exact Hsum].
Defined.
